(** * NarioJ.cpp: merge two arrays of doubles and sort them in descending order

    A shallow embedding of [src/NarioJ.cpp].  The program reads two sizes and
    that many [double]s from [cin], appends the second array to the first,
    sorts the merged [vector<double>] with an in-place selection sort
    (largest first) and prints it.

    - [double] is the IEEE 754 binary64 format, taken from the Standard
      Library's [SpecFloat] ([prec = 53], [emax = 1024]); the comparison
      [a > b] of C++ is [SFltb b a].
    - [int] is a 32-bit signed integer held in [Z]; loop counters never leave
      the range because they are bounded by the vector's size.
    - [vector<double>] is a [list double]; [operator[]] outside the vector is
      undefined behaviour and shows up as the outcome [Undefined].
    - [cin] and [cout] are explicit state ([world]); a [while (true)] loop
      takes fuel, the number of rounds it may make, and yields [OutOfFuel]
      when it is still looping after that many.

    The definitions come first, in the order of the source; the proofs
    follow, then the properties of the specification, C1 to C10, and
    further properties of the code. *)

From Stdlib Require Import ZArith List Ascii String Permutation Lia Bool DecimalString.
From Stdlib Require Import Floats.SpecFloat.
From stdpp Require Import base list sorting.

Local Open Scope Z_scope.

(** ** Outcomes of running a piece of the program *)

Inductive outcome (A : Type) : Type :=
| Done (a : A)      (* ran to completion *)
| OutOfFuel         (* a [while (true)] loop is still running *)
| Undefined.        (* an access outside a vector *)

Arguments Done {A} a.
Arguments OutOfFuel {A}.
Arguments Undefined {A}.

#[global] Instance outcome_ret : MRet outcome := fun A a => Done a.
#[global] Instance outcome_bind : MBind outcome := fun A B f m =>
  match m with
  | Done a => f a
  | OutOfFuel => OutOfFuel
  | Undefined => Undefined
  end.

(** [for (int i = lo; i < hi; i++) body], for a body that changes neither
    [i] nor [hi]: the body runs for [i = lo, lo+1, ..., hi-1], not at all when
    [hi <= lo]. *)
Fixpoint for_loop {St : Type} (body : Z → St → outcome St)
    (count : nat) (i : Z) (s : St) : outcome St :=
  match count with
  | O => Done s
  | S count' => s' ← body i s; for_loop body count' (i + 1) s'
  end.

Definition for_range {St : Type} (lo hi : Z) (body : Z → St → outcome St)
    (s : St) : outcome St :=
  for_loop body (Z.to_nat (hi - lo)) lo s.

(** ** 32-bit [int] *)

Definition INT_MAX : Z := 2147483647.
Definition INT_MIN : Z := -2147483648.

(** Conversion of a [size_t] to [int] ([int n = mergedArray.size()]):
    reduction modulo 2^32 into the signed range. *)
Definition int_of_size (len : nat) : Z :=
  (Z.of_nat len + 2147483648) mod 4294967296 - 2147483648.

(** ** [double] *)

Module Double.

Definition double : Type := spec_float.

Definition prec : Z := 53.
Definition emax : Z := 1024.

(** C++ [a > b] and [a >= b]; both are false when an operand is a NaN. *)
Definition gt (a b : double) : bool := SFltb b a.
Definition ge (a b : double) : bool := SFleb b a.
(** C++ [a == b]. *)
Definition eq (a b : double) : bool := SFeqb a b.

Definition is_nan (a : double) : bool :=
  match a with S754_nan => true | _ => false end.

(** The double nearest to an integer. *)
Definition of_Z (z : Z) : double := binary_normalize prec emax z 0 false.

End Double.

Import Double.

(** ** [vector<double>] *)

(** [v[i]] as an rvalue. *)
Definition vec_get (v : list double) (i : Z) : outcome double :=
  if 0 <=? i then
    match v !! Z.to_nat i with
    | Some x => Done x
    | None => Undefined
    end
  else Undefined.

(** [v[i] = x]. *)
Definition vec_set (v : list double) (i : Z) (x : double) : outcome (list double) :=
  if (0 <=? i) && (i <? Z.of_nat (length v)) then Done (<[Z.to_nat i := x]> v)
  else Undefined.

(** [v.push_back(x)]. *)
Definition push_back (v : list double) (x : double) : list double := v ++ [x].

(** ** The selection sort of [main] (lines 64-77) *)

(** The inner loop's body: [if (mergedArray[j] > mergedArray[maxIndex]) maxIndex = j;]. *)
Definition scan_body (mergedArray : list double) (j maxIndex : Z) : outcome Z :=
  a ← vec_get mergedArray j;
  b ← vec_get mergedArray maxIndex;
  mret (if gt a b then j else maxIndex).

(** [maxIndex = i; for (int j = i + 1; j < n; j++) ...]: the final [maxIndex]. *)
Definition find_max (mergedArray : list double) (n i : Z) : outcome Z :=
  for_range (i + 1) n (scan_body mergedArray) i.

(** [temp = a[i]; a[i] = a[maxIndex]; a[maxIndex] = temp;]. *)
Definition swap (mergedArray : list double) (i maxIndex : Z) : outcome (list double) :=
  temp ← vec_get mergedArray i;
  x ← vec_get mergedArray maxIndex;
  mergedArray ← vec_set mergedArray i x;
  vec_set mergedArray maxIndex temp.

(** One round of the outer loop. *)
Definition sort_body (n i : Z) (mergedArray : list double) : outcome (list double) :=
  maxIndex ← find_max mergedArray n i;
  swap mergedArray i maxIndex.

(** [int n = mergedArray.size(); for (int i = 0; i < n - 1; i++) ...]. *)
Definition selection_sort (mergedArray : list double) : outcome (list double) :=
  let n := int_of_size (length mergedArray) in
  for_range 0 (n - 1) (sort_body n) mergedArray.

(** ** Concatenation (lines 61-62) *)

(** [for (int i = 0; i < size; i++) mergedArray.push_back(arr[i]);]. *)
Definition append_loop (arr : list double) (size : Z) (mergedArray : list double)
    : outcome (list double) :=
  for_range 0 size (fun i m => x ← vec_get arr i; mret (push_back m x)) mergedArray.

(** The three vectors of [main]. *)
Record vectors : Type := Vectors {
  arr1 : list double;
  arr2 : list double;
  mergedArray : list double
}.

Definition merge_arrays (size1 size2 : Z) (vs : vectors) : outcome vectors :=
  m ← append_loop (arr1 vs) size1 (mergedArray vs);
  m ← append_loop (arr2 vs) size2 m;
  mret (Vectors (arr1 vs) (arr2 vs) m).

(** ** The algorithm as the specification words it

    "For each position i from 0 to n-2, find the index of the maximum
    remaining value (the first occurrence on ties), then swap the element at
    i with the element at that index."  Written over positions in [nat] and
    list functions, independently of the loops above. *)

Module Spec.

(** The larger of two values, the earlier one on ties. *)
Definition larger (a b : double) : double := if ge a b then a else b.

(** The maximum of a non-empty list. *)
Definition maximum (l : list double) : option double :=
  match l with
  | [] => None
  | x :: r => Some (fold_left larger r x)
  end.

(** The first position from [i] on that holds the maximum of the elements
    at positions [i], [i+1], ... *)
Definition first_max_index (v : list double) (i : nat) : option nat :=
  match maximum (drop i v) with
  | None => None
  | Some m =>
    match list_find (fun x => Is_true (eq x m)) (drop i v) with
    | Some (k, _) => Some (i + k)%nat
    | None => None
    end
  end.

(** Exchange of the elements at two positions. *)
Definition exchange (v : list double) (i j : nat) : list double :=
  match v !! i, v !! j with
  | Some x, Some y => <[j := x]> (<[i := y]> v)
  | _, _ => v
  end.

Definition select (v : list double) (i : nat) : list double :=
  match first_max_index v i with
  | Some m => exchange v i m
  | None => v
  end.

(** Positions 0, 1, ..., n-2 in turn. *)
Definition sort_descending (v : list double) : list double :=
  fold_left select (seq 0 (length v - 1)) v.

(** "Non-increasing": every element is >= the one that follows it. *)
Definition non_increasing (v : list double) : Prop :=
  ∀ (i : nat) (x y : double),
    v !! i = Some x → v !! S i = Some y → ge x y = true.

(** Elements "separated by a single space": a space between consecutive
    elements and none after the last. *)
Fixpoint separated (sep : string) (l : list string) : string :=
  match l with
  | [] => EmptyString
  | [x] => x
  | x :: r => x ++ sep ++ separated sep r
  end%string.

(** Every element followed by the separator. *)
Fixpoint terminated (sep : string) (l : list string) : string :=
  match l with
  | [] => EmptyString
  | x :: r => x ++ sep ++ terminated sep r
  end%string.

End Spec.

(** ** [std::istream] and [std::ostream]

    [operator>>], [ignore], [clear] and [operator<<] belong to the C++
    library, not to the program; they are modelled after the C++11 standard
    in the "C" locale with the default format flags. *)

Module Ios.

Local Open Scope string_scope.
Local Open Scope Z_scope.

(** The characters not yet read and the state flags. *)
Record istream : Type := Istream {
  buf : string;
  failbit : bool;
  eofbit : bool
}.

Definition good (s : istream) : bool := negb (failbit s) && negb (eofbit s).
Definition fail (s : istream) : bool := failbit s.
Definition clear (s : istream) : istream := Istream (buf s) false false.

Definition is_space (c : ascii) : bool :=
  let n := N_of_ascii c in ((9 <=? n) && (n <=? 13) || (n =? 32))%N.

Definition is_digit (c : ascii) : bool :=
  let n := N_of_ascii c in ((48 <=? n) && (n <=? 57))%N.

Definition digit_value (c : ascii) : Z := Z.of_N (N_of_ascii c) - 48.

Definition is_empty (s : string) : bool :=
  match s with EmptyString => true | _ => false end.

Fixpoint skip_ws (s : string) : string :=
  match s with
  | String c r => if is_space c then skip_ws r else s
  | EmptyString => s
  end.

(** An optional sign: [true] for ['-']. *)
Definition read_sign (s : string) : bool * string :=
  match s with
  | String "-" r => (true, r)
  | String "+" r => (false, r)
  | _ => (false, s)
  end.

(** The longest run of decimal digits: its value, its length, the rest. *)
Fixpoint read_digits (s : string) (acc : Z) (count : Z) : Z * Z * string :=
  match s with
  | String c r =>
    if is_digit c then read_digits r (10 * acc + digit_value c) (count + 1)
    else (acc, count, s)
  | EmptyString => (acc, count, s)
  end.

(** [is >> n] for an [int n]; [old] is the value of [n] before.  When the
    stream is not good or only white space is left, [failbit] is set and [n]
    keeps its value; a field without digits stores 0 and a value out of
    range stores the nearest bound, both with [failbit]. *)
Definition extract_int (s : istream) (old : Z) : istream * Z :=
  if negb (good s) then (Istream (buf s) true (eofbit s), old)
  else
    match skip_ws (buf s) with
    | EmptyString => (Istream EmptyString true true, old)
    | b =>
      let '(neg, b) := read_sign b in
      let '(m, count, rest) := read_digits b 0 0 in
      let eof := is_empty rest in
      if count =? 0 then (Istream rest true eof, 0)
      else
        let v := if neg then - m else m in
        if v >? INT_MAX then (Istream rest true eof, INT_MAX)
        else if v <? INT_MIN then (Istream rest true eof, INT_MIN)
        else (Istream rest false eof, v)
    end.

(** The double nearest to [m * 10^e10] (round to nearest, ties to even),
    with the sign [neg]; an infinity when it is out of range. *)
Definition double_of_decimal (neg : bool) (m e10 : Z) : double :=
  if m =? 0 then S754_zero neg
  else if 0 <=? e10 then
    binary_normalize prec emax ((if neg then - m else m) * 10 ^ e10) 0 neg
  else
    let d := 10 ^ (- e10) in
    let s := Z.log2 d + 64 in
    let '(q, r) := Z.div_eucl (Z.shiftl m s) d in
    binary_round_aux prec emax neg q (- s) (new_location d r).

Definition DBL_MAX (neg : bool) : double :=
  S754_finite neg 9007199254740991 971.

Definition is_exp_char (c : ascii) : bool :=
  match c with "e"%char | "E"%char => true | _ => false end.

(** The digits of a field with at most one decimal point: their value as an
    integer, how many there are, how many follow the point, and the rest. *)
Definition read_mantissa (s : string) : Z * Z * Z * string :=
  let '(m, ni, s) := read_digits s 0 0 in
  match s with
  | String "." r => let '(m, nf, r) := read_digits r m 0 in (m, ni + nf, nf, r)
  | _ => (m, ni, 0, s)
  end.

(** An optional exponent: its value, whether digits follow the mark, and
    the rest. *)
Definition read_exponent (s : string) : Z * bool * string :=
  match s with
  | String c r =>
    if is_exp_char c then
      let '(eneg, r) := read_sign r in
      let '(e, ne, r) := read_digits r 0 0 in
      (if eneg then - e else e, negb (ne =? 0), r)
    else (0, true, s)
  | EmptyString => (0, true, s)
  end.

(** [is >> x] for a [double x]: an optional sign, digits with at most one
    decimal point, and an optional exponent are taken from the stream; the
    field must hold a digit, and digits after an exponent mark.  A field
    without value stores 0 and a value out of range stores the largest
    double, both with [failbit]. *)
Definition extract_double (s : istream) (old : double) : istream * double :=
  if negb (good s) then (Istream (buf s) true (eofbit s), old)
  else
    match skip_ws (buf s) with
    | EmptyString => (Istream EmptyString true true, old)
    | b =>
      let '(neg, b) := read_sign b in
      let '(m, n, nf, b) := read_mantissa b in
      if n =? 0 then (Istream b true (is_empty b), S754_zero false)
      else
        let '(e, valid, b) := read_exponent b in
        let eof := is_empty b in
        if negb valid then (Istream b true eof, S754_zero false)
        else
          match double_of_decimal neg m (e - nf) with
          | S754_infinity sg => (Istream b true eof, DBL_MAX sg)
          | x => (Istream b false eof, x)
          end
    end.

(** What [ignore(n, delim)] leaves of the buffer, and whether it ran into
    the end of the input. *)
Fixpoint ignore_chars (s : string) (n : Z) (delim : ascii) : string * bool :=
  match s with
  | String c r =>
    if n <=? 0 then (s, false)
    else if Ascii.eqb c delim then (r, false)
    else ignore_chars r (n - 1) delim
  | EmptyString => (s, 0 <? n)
  end.

Definition ignore (s : istream) (n : Z) (delim : ascii) : istream :=
  if negb (good s) then Istream (buf s) true (eofbit s)
  else
    let '(rest, eof) := ignore_chars (buf s) n delim in
    Istream rest false eof.

(** *** Formatting *)

Definition show_nat_digits (n : Z) : string :=
  NilZero.string_of_uint (N.to_uint (Z.to_N n)).

(** [os << n] for an [int]. *)
Definition show_int (n : Z) : string :=
  NilZero.string_of_int (Z.to_int n).

(** The integer nearest to [a / b], ties to even ([0 <= a], [0 < b]). *)
Definition round_div (a b : Z) : Z :=
  let '(q, r) := Z.div_eucl a b in
  match 2 * r ?= b with
  | Lt => q
  | Gt => q + 1
  | Eq => if Z.even q then q else q + 1
  end.

(** The decimal exponent of [num / den]: the [x] with
    [10^x <= num / den < 10^(x+1)]. *)
Fixpoint exponent10 (fuel : nat) (num den x : Z) : Z :=
  match fuel with
  | O => x
  | S fuel' =>
    if 10 * den <=? num then exponent10 fuel' num (10 * den) (x + 1)
    else if num <? den then exponent10 fuel' (10 * num) den (x - 1)
    else x
  end.

Fixpoint strip_zeros_rev (l : list ascii) : list ascii :=
  match l with
  | "0"%char :: r => strip_zeros_rev r
  | _ => l
  end.

(** A fraction without its trailing zeros, and without the point when
    nothing is left. *)
Definition fraction (digits : string) : string :=
  match rev (strip_zeros_rev (rev (list_ascii_of_string digits))) with
  | [] => EmptyString
  | l => "." ++ string_of_list_ascii l
  end.

Fixpoint zeros (n : nat) : string :=
  match n with O => EmptyString | S n' => "0" ++ zeros n' end.

(** The exponent of the scientific style: a sign and at least two digits. *)
Definition show_exponent (x : Z) : string :=
  (if x <? 0 then "-" else "+") ++
  (if Z.abs x <? 10 then "0" else EmptyString) ++ show_nat_digits (Z.abs x).

(** [%g] with precision 6 for the positive value [m * 2^e]. *)
Definition show_positive (m : positive) (e : Z) : string :=
  let num := if 0 <=? e then Z.pos m * 2 ^ e else Z.pos m in
  let den := if 0 <=? e then 1 else 2 ^ (- e) in
  let x := exponent10 400 num den 0 in
  let n := if 0 <=? 5 - x then round_div (num * 10 ^ (5 - x)) den
           else round_div num (den * 10 ^ (x - 5)) in
  let '(n, x) := if n =? 1000000 then (100000, x + 1) else (n, x) in
  let digits := show_nat_digits n in
  if (x <? -4) || (6 <=? x) then
    substring 0 1 digits ++ fraction (substring 1 5 digits) ++ "e" ++ show_exponent x
  else if 0 <=? x then
    substring 0 (Z.to_nat (x + 1)) digits ++
    fraction (substring (Z.to_nat (x + 1)) (Z.to_nat (5 - x)) digits)
  else
    "0" ++ fraction (zeros (Z.to_nat (- x - 1)) ++ digits).

(** [os << x] for a [double]. *)
Definition show_double (x : double) : string :=
  match x with
  | S754_nan => "nan"
  | S754_infinity sg => (if sg then "-" else EmptyString) ++ "inf"
  | S754_zero sg => (if sg then "-" else EmptyString) ++ "0"
  | S754_finite sg m e => (if sg then "-" else EmptyString) ++ show_positive m e
  end.

End Ios.

Import Ios.

(** ** The program *)

Local Open Scope string_scope.
Local Open Scope Z_scope.

(** Standard input and standard output. *)
Record world : Type := World {
  cin : istream;
  cout : string
}.

(** The world at the start of a run whose standard input holds [input]. *)
Definition start (input : string) : world := World (Istream input false false) EmptyString.

Definition put (s : string) (w : world) : world := World (cin w) (cout w ++ s).
Definition put_int (n : Z) (w : world) : world := put (show_int n) w.
Definition put_double (x : double) (w : world) : world := put (show_double x) w.
Definition endl (w : world) : world := put (String "010" EmptyString) w.

Definition cin_int (size : Z) (w : world) : Z * world :=
  let '(s, size) := extract_int (cin w) size in (size, World s (cout w)).
Definition cin_double (input : double) (w : world) : double * world :=
  let '(s, input) := extract_double (cin w) input in (input, World s (cout w)).
Definition cin_clear (w : world) : world := World (clear (cin w)) (cout w).
Definition cin_ignore (n : Z) (delim : ascii) (w : world) : world :=
  World (ignore (cin w) n delim) (cout w).

(** The 67 asterisks of [line]. *)
Definition stars : string :=
  "*******************************************************************".

(** [void line()]. *)
Definition line (w : world) : world := endl (put stars w).

(** [void getValidSize(int &size)]; [size] is the referenced variable, whose
    final value is returned. *)
Fixpoint getValidSize (fuel : nat) (size : Z) (w : world) : outcome (Z * world) :=
  match fuel with
  | O => OutOfFuel
  | S fuel' =>
    let '(size, w) := cin_int size w in
    if fail (cin w) || (size <=? 0) then
      let w := cin_clear w in
      let w := cin_ignore 10000 "010" w in
      let w := put "Invalid input. Please enter a positive whole number: " w in
      getValidSize fuel' size w
    else Done (size, w)
  end.

(** [void getValidNumber(double &input)]. *)
Fixpoint getValidNumber (fuel : nat) (input : double) (w : world)
    : outcome (double * world) :=
  match fuel with
  | O => OutOfFuel
  | S fuel' =>
    let '(input, w) := cin_double input w in
    if fail (cin w) then
      let w := cin_clear w in
      let w := cin_ignore 10000 "010" w in
      let w := put "Invalid input. Please enter a valid number: " w in
      getValidNumber fuel' input w
    else Done (input, w)
  end.

(** [if (size > 10) size = 10;]. *)
Definition clamp (size : Z) : Z := if size >? 10 then 10 else size.

(** [for (int i = 0; i < size; i++) { getValidNumber(num); arr.push_back(num); }]:
    the state is [num], the vector and the world. *)
Definition read_elements (fuel : nat) (size : Z) (num : double) (arr : list double)
    (w : world) : outcome (double * list double * world) :=
  for_range 0 size
    (fun _ '(num, arr, w) =>
       '(num, w) ← getValidNumber fuel num w;
       mret (num, push_back arr num, w))
    (num, arr, w).

(** What [main] does with a size that [getValidSize] has accepted (lines
    44-49 and 54-59): the clamp, the prompt and the reading loop.  The
    clamped size is returned with the rest. *)
Definition read_array (fuel : nat) (size : Z) (num : double) (arr : list double)
    (w : world) : outcome (Z * double * list double * world) :=
  let size := clamp size in
  let w := put " elements: " (put_int size (put "Enter " w)) in
  '(num, arr, w) ← read_elements fuel size num arr w;
  mret (size, num, arr, w).

(** The printing loop and the final [endl] (lines 81-84). *)
Definition print_array (mergedArray : list double) (n : Z) (w : world) : outcome world :=
  w ← for_range 0 n
        (fun i w => x ← vec_get mergedArray i; mret (put " " (put_double x w))) w;
  mret (endl w).

(** What is known when [main] returns. *)
Record final : Type := Final {
  inputs : vectors;          (* arr1, arr2 and mergedArray before the sort *)
  sorted : list double;      (* mergedArray after the sort *)
  world_out : world;
  exit_code : Z
}.

(** [int main()].  [size1], [size2] and [num] are not initialised in the
    source: their first values are arguments here.  [operator>>] writes them
    before they are read ([cin.fail() || size <= 0] does not look at [size]
    after a failure), so the run does not depend on them. *)
Definition main_with (size1 size2 : Z) (num : double) (fuel : nat) (w : world)
    : outcome final :=
  let vs := Vectors [] [] [] in
  let w := line w in
  let w := put "How many would you want to place in the first array? (max 10): " w in
  '(size1, w) ← getValidSize fuel size1 w;
  '(size1, num, a1, w) ← read_array fuel size1 num (arr1 vs) w;
  let w := line w in
  let w := put "How many would you want to place in the second array? (max 10): " w in
  '(size2, w) ← getValidSize fuel size2 w;
  '(size2, num, a2, w) ← read_array fuel size2 num (arr2 vs) w;
  vs ← merge_arrays size1 size2 (Vectors a1 a2 (mergedArray vs));
  let n := int_of_size (length (mergedArray vs)) in
  out ← selection_sort (mergedArray vs);
  let w := line w in
  let w := put "Merged and sorted array: " w in
  w ← print_array out n w;
  mret (Final vs out w 0).

(** The program, with zeros in the variables that are not initialised. *)
Definition main (fuel : nat) (w : world) : outcome final :=
  main_with 0 0 (S754_zero false) fuel w.

(** A line break, for writing inputs and outputs. *)
Definition nl : string := String "010" EmptyString.

(** The input of the specification's example: sizes 3 and 2, values
    1 5 3 and 2 2, one line each. *)
Definition example_input : string :=
  "3" ++ nl ++ "1 5 3" ++ nl ++ "2" ++ nl ++ "2 2" ++ nl.

(** An input whose first two lines are not sizes: a word and a negative number. *)
Definition retry_input : string := "abc" ++ nl ++ "-4" ++ nl ++ "7" ++ nl.

(** ** Attempts of [getValidSize]

    What the loop of [getValidSize] does between two reads, and the state
    after a number of rejected attempts; used to say which attempt returns. *)

(** The branch taken after a rejected attempt: the flags are cleared, the
    rest of the line is dropped and the user is asked again. *)
Definition reprompt_size (w : world) : world :=
  put "Invalid input. Please enter a positive whole number: "
    (cin_ignore 10000 "010" (cin_clear w)).

(** The test [cin.fail() || size <= 0] on what [cin >> size] left. *)
Definition size_rejected (r : Z * world) : bool :=
  fail (cin (snd r)) || (fst r <=? 0).

(** [size] and the world after [k] attempts, each followed by the branch above. *)
Fixpoint size_attempts (k : nat) (size : Z) (w : world) : Z * world :=
  match k with
  | O => (size, w)
  | S k' => let '(size, w) := cin_int size w in size_attempts k' size (reprompt_size w)
  end.

(** The [k+1]-th attempt. *)
Definition size_attempt (k : nat) (size : Z) (w : world) : Z * world :=
  let '(size, w) := size_attempts k size w in cin_int size w.

(** ** Attempts of [getValidNumber] *)

(** The branch of [getValidNumber] after a failed read. *)
Definition reprompt_number (w : world) : world :=
  put "Invalid input. Please enter a valid number: "
    (cin_ignore 10000 "010" (cin_clear w)).

(** The test [cin.fail()] on what [cin >> input] left. *)
Definition number_rejected (r : double * world) : bool := fail (cin (snd r)).

(** [input] and the world after [k] attempts, each followed by the branch above. *)
Fixpoint number_attempts (k : nat) (input : double) (w : world) : double * world :=
  match k with
  | O => (input, w)
  | S k' =>
    let '(input, w) := cin_double input w in number_attempts k' input (reprompt_number w)
  end.

(** The [k+1]-th attempt. *)
Definition number_attempt (k : nat) (input : double) (w : world) : double * world :=
  let '(input, w) := number_attempts k input w in cin_double input w.

(** ** What the program writes *)

Definition size_prompt : string :=
  "Invalid input. Please enter a positive whole number: ".
Definition number_prompt : string :=
  "Invalid input. Please enter a valid number: ".

(** [k] copies of a text, one after the other. *)
Fixpoint copies (k : nat) (s : string) : string :=
  match k with
  | O => EmptyString
  | S k' => s ++ copies k' s
  end.


(** ** More predicates on doubles and inputs *)

(** Neither a NaN nor an infinity. *)
Definition is_finite (x : double) : bool :=
  match x with
  | S754_zero _ | S754_finite _ _ _ => true
  | _ => false
  end.

(** The value with the sign of a zero dropped: [-0.0 == 0.0] in C++, and
    no other two doubles compare equal. *)
Definition unsigned_zero (x : double) : double :=
  match x with
  | S754_zero _ => S754_zero false
  | _ => x
  end.

(** No line break in a text. *)
Fixpoint one_line (s : string) : bool :=
  match s with
  | EmptyString => true
  | String c r => negb (Ascii.eqb c "010") && one_line r
  end.

(** ** Predicates used in the statements *)

(** No element is a NaN: what [operator>>] can deliver. *)
Definition nan_free (v : list double) : Prop :=
  Forall (fun x => is_nan x = false) v.

(** The vector's size is an [int]. *)
Definition int_sized (v : list double) : Prop :=
  Z.of_nat (length v) <= INT_MAX.

(** [m] is the first position in [i .. n-1] holding the maximum of the
    elements there: nothing in the range is larger than [v[m]], and everything
    before [m] is strictly smaller. *)
Definition first_max (v : list double) (i n m : Z) : Prop :=
  i <= m < n ∧
  ∀ k x y, i <= k < n → vec_get v k = Done x → vec_get v m = Done y →
    ge y x = true ∧ (k < m → gt y x = true).

(** Where the element at position [k] comes from after a swap of [i] and [m]. *)
Definition swapped (i m k : Z) : Z :=
  if k =? m then i else if k =? i then m else k.

(** The invariant of the outer loop: the first [i] positions hold, in
    non-increasing order, elements that are >= everything after them. *)
Definition prefix_sorted (n i : Z) (w : list double) : Prop :=
  ∀ a b x y, 0 <= a < i → a < b < n →
    vec_get w a = Done x → vec_get w b = Done y → ge x y = true.

(** ** Concrete values *)

Definition d1 : double := of_Z 1.
Definition d2 : double := of_Z 2.
Definition d3 : double := of_Z 3.
Definition d5 : double := of_Z 5.
Definition d7 : double := of_Z 7.

(** The vectors of the specification's example. *)
Definition example_A : list double := [d1; d5; d3].
Definition example_B : list double := [d2; d2].
Definition example_merged : list double := [d1; d5; d3; d2; d2].
Definition example_sorted : list double := [d5; d3; d2; d2; d1].

Example main_example : ∃ r, main 1 (start example_input) = Done r.
Proof. vm_compute. eexists. reflexivity. Qed.

Example sort_example :
  selection_sort [d1; d5; d3; d2; d2] = Done [d5; d3; d2; d2; d1].
Proof. vm_compute. reflexivity. Qed.

(** A NaN compares false with everything, so the sort leaves it where it
    is and the order around it carries no information. *)
Example sort_nan_example :
  selection_sort [d1; S754_nan; d3] = Done [d3; S754_nan; d1] ∧
  ge d3 S754_nan = false.
Proof. split; vm_compute; reflexivity. Qed.

(** An [int] out of range is not a size: the read fails and the user is
    asked again. *)
Example size_out_of_range :
  getValidSize 1 0 (start "2147483648") = OutOfFuel ∧
  size_rejected (cin_int 0 (start "2147483648")) = true.
Proof. split; vm_compute; reflexivity. Qed.

(** * Proofs *)

Local Close Scope string_scope.

(** ** The order of the doubles *)

Section Order.

Local Ltac cases_compare :=
  repeat match goal with
    | H : context [(?a ?= ?b)%Z] |- _ => destruct (Z.compare_spec a b)
    | |- context [(?a ?= ?b)%Z] => destruct (Z.compare_spec a b)
    | H : context [(?a ?= ?b)%positive] |- _ => destruct (Pos.compare_spec a b)
    | |- context [(?a ?= ?b)%positive] => destruct (Pos.compare_spec a b)
    end.

Local Ltac order_crush :=
  unfold gt, ge, eq, is_nan, SFltb, SFleb, SFeqb, SFcompare;
  repeat match goal with
    | x : double |- _ => destruct x
    | x : spec_float |- _ => destruct x
    | s : bool |- _ => destruct s
    end;
  simpl; try rewrite ?Pos.compare_cont_spec; simpl;
  intros; try discriminate; try reflexivity;
  rewrite ?Pos.compare_cont_spec in *; simpl in *;
  cases_compare; simpl in *; subst;
  try discriminate; try reflexivity; try lia.

Lemma ge_refl (a : double) : is_nan a = false → ge a a = true.
Proof. order_crush. Qed.

Lemma not_gt_ge (a b : double) :
  is_nan a = false → is_nan b = false → gt a b = false → ge b a = true.
Proof. order_crush. Qed.

Lemma gt_ge (a b : double) : gt a b = true → ge a b = true.
Proof. order_crush. Qed.

Lemma ge_not_gt (a b : double) : ge a b = true → gt b a = false.
Proof. order_crush. Qed.

Lemma ge_not_nan (a b : double) :
  ge a b = true → is_nan a = false ∧ is_nan b = false.
Proof. order_crush; split; reflexivity. Qed.

Lemma ge_trans (a b c : double) : ge a b = true → ge b c = true → ge a c = true.
Proof. order_crush. Qed.

Lemma gt_ge_trans (a b c : double) : gt a b = true → ge b c = true → gt a c = true.
Proof. order_crush. Qed.

Lemma eq_ge (a b : double) : eq a b = true → ge a b = true ∧ ge b a = true.
Proof. order_crush; split; reflexivity. Qed.

Lemma ge_ge_eq (a b : double) : ge a b = true → ge b a = true → eq a b = true.
Proof. order_crush. Qed.

Lemma gt_not_eq (a b : double) : gt a b = true → eq b a = false.
Proof. order_crush. Qed.

Lemma not_ge_ge (a b : double) :
  is_nan a = false → is_nan b = false → ge a b = false → ge b a = true.
Proof. order_crush. Qed.

End Order.

(** ** Loops *)

Lemma bind_Done {A B : Type} (m : outcome A) (f : A → outcome B) (b : B) :
  m ≫= f = Done b ↔ ∃ a, m = Done a ∧ f a = Done b.
Proof.
  destruct m; simpl; split.
  - eauto.
  - intros (a' & [= <-] & H). exact H.
  - discriminate.
  - intros (a & H & _). discriminate.
  - discriminate.
  - intros (a & H & _). discriminate.
Qed.

(** A Hoare-style rule for [for_loop]: an invariant that holds at the start
    and is kept by every round holds at the end, and the loop completes. *)
Lemma for_loop_inv {St : Type} (I : Z → St → Prop) (body : Z → St → outcome St) :
  ∀ (count : nat) (i : Z) (s : St),
    I i s →
    (∀ k t, i <= k < i + Z.of_nat count → I k t →
       ∃ t', body k t = Done t' ∧ I (k + 1) t') →
    ∃ s', for_loop body count i s = Done s' ∧ I (i + Z.of_nat count) s'.
Proof.
  induction count as [|count IH]; intros i s Hi Hstep.
  - exists s. split; [reflexivity|]. now replace (i + Z.of_nat 0) with i by lia.
  - destruct (Hstep i s) as (t & Hb & Ht); [lia | exact Hi |].
    destruct (IH (i + 1) t Ht) as (s' & Hl & Hs').
    + intros k u Hk Hu. apply Hstep; [lia | exact Hu].
    + exists s'. split.
      * simpl. rewrite Hb. exact Hl.
      * now replace (i + Z.of_nat (S count)) with (i + 1 + Z.of_nat count) by lia.
Qed.

Lemma for_range_inv {St : Type} (I : Z → St → Prop) (body : Z → St → outcome St)
    (lo hi : Z) (s : St) :
  lo <= hi →
  I lo s →
  (∀ k t, lo <= k < hi → I k t → ∃ t', body k t = Done t' ∧ I (k + 1) t') →
  ∃ s', for_range lo hi body s = Done s' ∧ I hi s'.
Proof.
  intros Hle Hs Hstep. unfold for_range.
  destruct (for_loop_inv I body (Z.to_nat (hi - lo)) lo s Hs) as (s' & H1 & H2).
  - intros k t Hk. apply Hstep. lia.
  - exists s'. split; [exact H1|].
    replace (lo + Z.of_nat (Z.to_nat (hi - lo))) with hi in H2 by lia. exact H2.
Qed.

Lemma for_range_empty {St : Type} (body : Z → St → outcome St) (lo hi : Z) (s : St) :
  hi <= lo → for_range lo hi body s = Done s.
Proof.
  intros H. unfold for_range. now replace (Z.to_nat (hi - lo)) with O by lia.
Qed.

(** The first round of a loop that has one. *)
Lemma for_range_step {St : Type} (body : Z → St → outcome St) (lo hi : Z) (s : St) :
  lo < hi →
  for_range lo hi body s = body lo s ≫= for_range (lo + 1) hi body.
Proof.
  intros H. unfold for_range.
  replace (Z.to_nat (hi - lo)) with (S (Z.to_nat (hi - (lo + 1)))) by lia.
  reflexivity.
Qed.

(** The last round of a loop that has one. *)
Lemma for_loop_last {St : Type} (body : Z → St → outcome St) :
  ∀ (count : nat) (i : Z) (s : St),
    for_loop body (S count) i s =
    for_loop body count i s ≫= body (i + Z.of_nat count).
Proof.
  induction count as [|count IH]; intros i s.
  - change (Z.of_nat 0) with 0. rewrite Z.add_0_r. simpl.
    destruct (body i s); reflexivity.
  - change (for_loop body (S (S count)) i s)
      with (body i s ≫= for_loop body (S count) (i + 1)).
    change (for_loop body (S count) i s)
      with (body i s ≫= for_loop body count (i + 1)).
    destruct (body i s) as [t| |]; [|reflexivity|reflexivity].
    change (for_loop body (S count) (i + 1) t =
            for_loop body count (i + 1) t ≫= body (i + Z.of_nat (S count))).
    rewrite IH. now replace (i + 1 + Z.of_nat count) with (i + Z.of_nat (S count)) by lia.
Qed.

(** ** Vectors *)

Lemma int_of_size_le (len : nat) : int_of_size len <= Z.of_nat len.
Proof.
  unfold int_of_size.
  destruct (Z.lt_ge_cases (Z.of_nat len) 2147483648) as [H|H].
  - rewrite Z.mod_small by lia. lia.
  - pose proof (Z.mod_pos_bound (Z.of_nat len + 2147483648) 4294967296). lia.
Qed.

Lemma int_of_size_small (v : list double) :
  int_sized v → int_of_size (length v) = Z.of_nat (length v).
Proof.
  unfold int_sized, INT_MAX, int_of_size. intros H.
  rewrite Z.mod_small by lia. lia.
Qed.

Lemma vec_get_Done (v : list double) (i : Z) (x : double) :
  vec_get v i = Done x ↔ 0 <= i ∧ v !! Z.to_nat i = Some x.
Proof.
  unfold vec_get. destruct (Z.leb_spec 0 i) as [H|H].
  - destruct (v !! Z.to_nat i) as [y|]; split.
    + intros [= ->]. auto.
    + intros [_ [= ->]]. reflexivity.
    + discriminate.
    + intros [_ ?]. discriminate.
  - split; [discriminate | lia].
Qed.

Lemma vec_get_in_range (v : list double) (i : Z) :
  0 <= i < Z.of_nat (length v) → ∃ x, vec_get v i = Done x.
Proof.
  intros H. destruct (lookup_lt_is_Some_2 v (Z.to_nat i)) as [x Hx]; [lia|].
  exists x. apply vec_get_Done. split; [lia | exact Hx].
Qed.

Lemma vec_get_nan_free (v : list double) (i : Z) (x : double) :
  nan_free v → vec_get v i = Done x → is_nan x = false.
Proof.
  intros Hv [_ Hx]%vec_get_Done.
  unfold nan_free in Hv. rewrite Forall_lookup in Hv. exact (Hv _ _ Hx).
Qed.

Lemma swap_Done (v : list double) (i m : Z) (x y : double) :
  vec_get v i = Done x → vec_get v m = Done y →
  swap v i m = Done (<[Z.to_nat m := x]> (<[Z.to_nat i := y]> v)).
Proof.
  intros Hi Hm. unfold swap. rewrite Hi, Hm. simpl.
  apply vec_get_Done in Hi as [Hi0 Hi], Hm as [Hm0 Hm].
  apply lookup_lt_Some in Hi, Hm.
  unfold vec_set.
  replace ((0 <=? i) && (i <? Z.of_nat (length v))) with true
    by (symmetry; apply andb_true_intro; split; [apply Z.leb_le|apply Z.ltb_lt]; lia).
  simpl. rewrite length_insert.
  replace ((0 <=? m) && (m <? Z.of_nat (length v))) with true
    by (symmetry; apply andb_true_intro; split; [apply Z.leb_le|apply Z.ltb_lt]; lia).
  reflexivity.
Qed.

Lemma swap_self (v : list double) (i : Z) :
  0 <= i < Z.of_nat (length v) → swap v i i = Done v.
Proof.
  intros H. destruct (vec_get_in_range v i H) as [x Hx].
  rewrite (swap_Done v i i x x Hx Hx).
  apply vec_get_Done in Hx as [_ Hx].
  now rewrite list_insert_insert_eq, list_insert_id.
Qed.

(** ** The inner loop *)

Lemma scan_body_Done (v : list double) (j m : Z) (a b : double) :
  vec_get v j = Done a → vec_get v m = Done b →
  scan_body v j m = Done (if gt a b then j else m).
Proof. intros Ha Hb. unfold scan_body. rewrite Ha, Hb. reflexivity. Qed.

(** The scan stays inside the vector and returns a position of the range. *)
Lemma find_max_range (v : list double) (n i : Z) :
  0 <= i < n → n <= Z.of_nat (length v) →
  ∃ m, find_max v n i = Done m ∧ i <= m < n.
Proof.
  intros Hi Hn. unfold find_max.
  destruct (for_range_inv (fun j m => i <= m < j) (scan_body v) (i + 1) n i)
    as (m & Hm & Hr); [lia | lia | | eauto].
  intros j m Hj Hm.
  destruct (vec_get_in_range v j) as [a Ha]; [lia|].
  destruct (vec_get_in_range v m) as [b Hb]; [lia|].
  rewrite (scan_body_Done v j m a b Ha Hb).
  eexists; split; [reflexivity|]. destruct (gt a b); lia.
Qed.

(** On a vector without NaN the scan returns the first maximum of the range. *)
Lemma find_max_first_max (v : list double) (n i : Z) :
  nan_free v → 0 <= i < n → n <= Z.of_nat (length v) →
  ∃ m, find_max v n i = Done m ∧ first_max v i n m.
Proof.
  intros Hv Hi Hn. unfold find_max.
  apply (for_range_inv (fun j m => first_max v i j m)); [lia | |].
  - split; [lia|]. intros k x y Hk Hx Hy.
    assert (k = i) as -> by lia. rewrite Hx in Hy. injection Hy as ->.
    split; [|lia]. apply ge_refl. eapply vec_get_nan_free; eassumption.
  - intros j m Hj [Hm Hmax].
    destruct (vec_get_in_range v j) as [a Ha]; [lia|].
    destruct (vec_get_in_range v m) as [b Hb]; [lia|].
    rewrite (scan_body_Done v j m a b Ha Hb).
    eexists; split; [reflexivity|].
    pose proof (vec_get_nan_free v j a Hv Ha) as Hna.
    pose proof (vec_get_nan_free v m b Hv Hb) as Hnb.
    destruct (gt a b) eqn:Hgt.
    + split; [lia|]. intros k x y Hk Hx Hy.
      rewrite Ha in Hy. injection Hy as <-.
      destruct (Z.eq_dec k j) as [->|Hne].
      * rewrite Ha in Hx. injection Hx as <-. split; [now apply ge_refl | lia].
      * destruct (Hmax k x b) as [Hge _]; [lia | assumption | assumption |].
        assert (gt a x = true) by (eapply gt_ge_trans; eassumption).
        split; [now apply gt_ge | auto].
    + split; [lia|]. intros k x y Hk Hx Hy.
      rewrite Hb in Hy. injection Hy as <-.
      destruct (Z.eq_dec k j) as [->|Hne].
      * rewrite Ha in Hx. injection Hx as <-. split; [now apply not_gt_ge | lia].
      * apply Hmax; [lia | assumption | assumption].
Qed.

(** A range has one first maximum. *)
Lemma first_max_unique (v : list double) (i n m1 m2 : Z) :
  0 <= i → n <= Z.of_nat (length v) →
  first_max v i n m1 → first_max v i n m2 → m1 = m2.
Proof.
  intros Hi Hn [Hr1 H1] [Hr2 H2].
  destruct (vec_get_in_range v m1) as [x1 Hx1]; [lia|].
  destruct (vec_get_in_range v m2) as [x2 Hx2]; [lia|].
  destruct (Z.lt_trichotomy m1 m2) as [Hlt|[Heq|Hlt]]; [exfalso | exact Heq | exfalso].
  - destruct (H2 m1 x1 x2) as [_ Hgt]; [lia | assumption | assumption |].
    destruct (H1 m2 x2 x1) as [Hge _]; [lia | assumption | assumption |].
    apply ge_not_gt in Hge. rewrite Hgt in Hge; [discriminate | lia].
  - destruct (H1 m2 x2 x1) as [_ Hgt]; [lia | assumption | assumption |].
    destruct (H2 m1 x1 x2) as [Hge _]; [lia | assumption | assumption |].
    apply ge_not_gt in Hge. rewrite Hgt in Hge; [discriminate | lia].
Qed.

(** ** The swap *)

Lemma swap_lookup (v : list double) (i m : Z) (x y : double) (k : Z) :
  vec_get v i = Done x → vec_get v m = Done y → 0 <= k →
  vec_get (<[Z.to_nat m := x]> (<[Z.to_nat i := y]> v)) k = vec_get v (swapped i m k).
Proof.
  intros Hx Hy Hk.
  pose proof Hx as [Hi0 Hxi]%vec_get_Done. pose proof Hy as [Hm0 Hym]%vec_get_Done.
  pose proof (lookup_lt_Some _ _ _ Hxi). pose proof (lookup_lt_Some _ _ _ Hym).
  unfold swapped.
  destruct (Z.eqb_spec k m) as [->|Hkm].
  - rewrite Hx. apply vec_get_Done. split; [lia|].
    apply list_lookup_insert_eq. rewrite length_insert. lia.
  - destruct (Z.eqb_spec k i) as [->|Hki].
    + rewrite Hy. apply vec_get_Done. split; [lia|].
      rewrite list_lookup_insert_ne by lia. apply list_lookup_insert_eq. lia.
    + unfold vec_get. rewrite !list_lookup_insert_ne by lia. reflexivity.
Qed.

(** One round of the outer loop swaps position [i] with a position of the
    range, so it permutes the vector. *)
Lemma sort_body_perm (n i : Z) (w : list double) :
  0 <= i < n → n <= Z.of_nat (length w) →
  ∃ w', sort_body n i w = Done w' ∧ w ≡ₚ w'.
Proof.
  intros Hi Hn. destruct (find_max_range w n i Hi Hn) as (m & Hm & Hr).
  destruct (vec_get_in_range w i) as [x Hx]; [lia|].
  destruct (vec_get_in_range w m) as [y Hy]; [lia|].
  unfold sort_body. rewrite Hm. simpl. rewrite (swap_Done w i m x y Hx Hy).
  eexists; split; [reflexivity|].
  apply vec_get_Done in Hx as [_ Hx], Hy as [_ Hy].
  symmetry. now apply Permutation_insert_swap.
Qed.

Lemma selection_sort_perm (v : list double) :
  ∃ out, selection_sort v = Done out ∧ v ≡ₚ out.
Proof.
  unfold selection_sort. set (n := int_of_size (length v)).
  assert (n <= Z.of_nat (length v)) as Hn by apply int_of_size_le.
  destruct (Z.le_gt_cases (n - 1) 0) as [Hle|Hgt].
  - rewrite for_range_empty by exact Hle. now exists v.
  - apply (for_range_inv (fun _ w => v ≡ₚ w)); [lia | reflexivity |].
    intros i w Hi Hp.
    destruct (sort_body_perm n i w) as (w' & Hw' & Hp'); [lia | |].
    + rewrite <- (Permutation_length Hp). exact Hn.
    + exists w'. split; [exact Hw' | now transitivity w].
Qed.

(** ** Sortedness *)

Lemma sort_body_sorted (n i : Z) (w : list double) :
  nan_free w → 0 <= i < n → n <= Z.of_nat (length w) →
  prefix_sorted n i w →
  ∃ w', sort_body n i w = Done w' ∧ w ≡ₚ w' ∧ prefix_sorted n (i + 1) w'.
Proof.
  intros Hnan Hi Hn Hpre.
  destruct (find_max_first_max w n i Hnan Hi Hn) as (m & Hm & Hr & Hmax).
  destruct (vec_get_in_range w i) as [x Hx]; [lia|].
  destruct (vec_get_in_range w m) as [y Hy]; [lia|].
  unfold sort_body. rewrite Hm. simpl. rewrite (swap_Done w i m x y Hx Hy).
  eexists; split; [reflexivity|]. split.
  - apply vec_get_Done in Hx as [_ Hx'], Hy as [_ Hy'].
    symmetry. now apply Permutation_insert_swap.
  - intros a b xa xb Ha Hb.
    rewrite !(swap_lookup w i m x y) by (assumption || lia).
    intros Hxa Hxb.
    assert (swapped i m b < n ∧ (a < i → a < swapped i m b) ∧
            (i <= b → i <= swapped i m b)) as (Hb1 & Hb2 & Hb3).
    { unfold swapped. destruct (Z.eqb_spec b m), (Z.eqb_spec b i); lia. }
    destruct (Z.eq_dec a i) as [->|Hne].
    + replace (swapped i m i) with m in Hxa
        by (unfold swapped; destruct (Z.eqb_spec i m); [lia | now rewrite Z.eqb_refl]).
      apply (Hmax (swapped i m b) xb xa); [lia | assumption | assumption].
    + replace (swapped i m a) with a in Hxa
        by (unfold swapped; destruct (Z.eqb_spec a m), (Z.eqb_spec a i); lia).
      apply (Hpre a (swapped i m b)); (assumption || lia).
Qed.

Lemma selection_sort_sorted (v : list double) :
  nan_free v → int_sized v →
  ∃ out, selection_sort v = Done out ∧ v ≡ₚ out ∧ Spec.non_increasing out.
Proof.
  intros Hnan Hsz. unfold selection_sort.
  rewrite (int_of_size_small v Hsz). set (n := Z.of_nat (length v)).
  destruct (Z.le_gt_cases (n - 1) 0) as [Hle|Hgt].
  - rewrite for_range_empty by exact Hle. exists v. split; [reflexivity|].
    split; [reflexivity|]. intros k x y Hx Hy. apply lookup_lt_Some in Hy. lia.
  - destruct (for_range_inv (fun i w => v ≡ₚ w ∧ prefix_sorted n i w)
                (sort_body n) 0 (n - 1) v) as (out & Hout & Hp & Hs).
    + lia.
    + split; [reflexivity|]. intros a b x y Ha. lia.
    + intros i w Hi [Hp Hs].
      destruct (sort_body_sorted n i w) as (w' & Hw' & Hp' & Hs').
      * unfold nan_free. now rewrite <- Hp.
      * lia.
      * rewrite <- (Permutation_length Hp). lia.
      * exact Hs.
      * exists w'. split; [exact Hw'|]. split; [now transitivity w | exact Hs'].
    + exists out. split; [exact Hout|]. split; [exact Hp|].
      intros k x y Hx Hy.
      pose proof (lookup_lt_Some _ _ _ Hy) as Hlt.
      rewrite <- (Permutation_length Hp) in Hlt.
      apply (Hs (Z.of_nat k) (Z.of_nat (S k))); [lia | lia | |].
      * apply vec_get_Done. split; [lia|]. now rewrite Nat2Z.id.
      * apply vec_get_Done. split; [lia|]. now rewrite Nat2Z.id.
Qed.

(** ** Vectors that are already sorted *)

Lemma non_increasing_pairs (v : list double) :
  Spec.non_increasing v →
  ∀ (d a : nat) (x y : double),
    v !! a = Some x → v !! (a + S d)%nat = Some y → ge x y = true.
Proof.
  intros Hv. induction d as [|d IH]; intros a x y Hx Hy.
  - apply (Hv a); [exact Hx|]. now replace (S a) with (a + 1)%nat by lia.
  - destruct (lookup_lt_is_Some_2 v (a + S d)%nat) as [z Hz].
    { apply lookup_lt_Some in Hy. lia. }
    apply ge_trans with z; [now apply (IH a)|].
    apply (Hv (a + S d)%nat); [exact Hz|].
    now replace (S (a + S d)) with (a + S (S d))%nat by lia.
Qed.

(** On a sorted vector the scan never moves [maxIndex]. *)
Lemma find_max_sorted (v : list double) (n i : Z) :
  Spec.non_increasing v → 0 <= i < n → n <= Z.of_nat (length v) →
  find_max v n i = Done i.
Proof.
  intros Hv Hi Hn. unfold find_max.
  destruct (for_range_inv (fun _ m => m = i) (scan_body v) (i + 1) n i)
    as (m & Hm & ->); [lia | reflexivity | | exact Hm].
  intros j m Hj ->.
  destruct (vec_get_in_range v j) as [a Ha]; [lia|].
  destruct (vec_get_in_range v i) as [b Hb]; [lia|].
  rewrite (scan_body_Done v j i a b Ha Hb).
  eexists; split; [reflexivity|].
  apply vec_get_Done in Ha as [_ Ha], Hb as [_ Hb].
  assert (ge b a = true) as Hge.
  { apply (non_increasing_pairs v Hv (Z.to_nat (j - i - 1)) (Z.to_nat i)); [exact Hb|].
    now replace (Z.to_nat i + S (Z.to_nat (j - i - 1)))%nat with (Z.to_nat j) by lia. }
  now rewrite (ge_not_gt _ _ Hge).
Qed.

Lemma selection_sort_fixed (v : list double) :
  Spec.non_increasing v → selection_sort v = Done v.
Proof.
  intros Hv. unfold selection_sort. set (n := int_of_size (length v)).
  assert (n <= Z.of_nat (length v)) as Hn by apply int_of_size_le.
  destruct (Z.le_gt_cases (n - 1) 0) as [Hle|Hgt].
  - now apply for_range_empty.
  - destruct (for_range_inv (fun _ w => w = v) (sort_body n) 0 (n - 1) v)
      as (w & Hw & ->); [lia | reflexivity | | exact Hw].
    intros i w Hi ->. exists v. split; [|reflexivity].
    unfold sort_body. rewrite find_max_sorted by (assumption || lia).
    simpl. apply swap_self. lia.
Qed.

(** ** The loops against the algorithm of the specification *)

Lemma fold_larger (r : list double) :
  ∀ x, is_nan x = false → nan_free r →
    let m := fold_left Spec.larger r x in
    (m = x ∨ m ∈ r) ∧ ge m x = true ∧ ∀ y, y ∈ r → ge m y = true.
Proof.
  induction r as [|z r IH]; intros x Hx Hr; simpl.
  - split; [now left|]. split; [now apply ge_refl|]. intros y Hy. inversion Hy.
  - apply Forall_cons in Hr as [Hz Hr].
    assert (is_nan (Spec.larger x z) = false ∧
            ge (Spec.larger x z) x = true ∧ ge (Spec.larger x z) z = true)
      as (Hn & H1 & H2).
    { unfold Spec.larger. destruct (ge x z) eqn:E.
      - split; [exact Hx|]. split; [now apply ge_refl | exact E].
      - split; [exact Hz|]. split; [now apply not_ge_ge | now apply ge_refl]. }
    destruct (IH (Spec.larger x z) Hn Hr) as (Hin & Hge & Hall).
    split; [|split].
    + destruct Hin as [->|Hin].
      * unfold Spec.larger. destruct (ge x z); [now left | right; constructor].
      * right. now constructor.
    + now apply ge_trans with (Spec.larger x z).
    + intros y [->|Hy]%elem_of_cons; [|now apply Hall].
      now apply ge_trans with (Spec.larger x z).
Qed.

Lemma maximum_spec (l : list double) (m : double) :
  nan_free l → Spec.maximum l = Some m →
  m ∈ l ∧ ∀ y, y ∈ l → ge m y = true.
Proof.
  destruct l as [|x r]; [discriminate|]. intros [Hx Hr]%Forall_cons [= <-].
  destruct (fold_larger r x Hx Hr) as (Hin & Hge & Hall). split.
  - destruct Hin as [->|Hin]; [constructor | now constructor].
  - intros y [->|Hy]%elem_of_cons; [exact Hge | now apply Hall].
Qed.

Lemma first_max_index_spec (v : list double) (i : nat) :
  nan_free v → (i < length v)%nat →
  ∃ m, Spec.first_max_index v i = Some m ∧
       first_max v (Z.of_nat i) (Z.of_nat (length v)) (Z.of_nat m).
Proof.
  intros Hv Hi. unfold Spec.first_max_index.
  assert (nan_free (drop i v)) as Hd by now apply Forall_drop.
  destruct (Spec.maximum (drop i v)) as [M|] eqn:HM.
  2:{ destruct (drop i v) eqn:E; [|discriminate].
      apply (f_equal length) in E. rewrite length_drop in E. simpl in E. lia. }
  destruct (maximum_spec _ _ Hd HM) as [Hin Hall].
  assert (is_nan M = false) as HnM.
  { unfold nan_free in Hd. rewrite Forall_forall in Hd. now apply Hd. }
  destruct (list_find_elem_of (fun x => Is_true (eq x M)) (drop i v) M Hin) as [[k y] Hk].
  { apply Is_true_true, ge_ge_eq; now apply ge_refl. }
  rewrite Hk. exists (i + k)%nat. split; [reflexivity|].
  apply list_find_Some in Hk as (Hy & HyM & Hfirst).
  apply Is_true_true, eq_ge in HyM as [HyM _].
  pose proof (lookup_lt_Some _ _ _ Hy) as Hlen. rewrite length_drop in Hlen.
  rewrite lookup_drop in Hy.
  split; [lia|]. intros j x y' Hj [_ Hx]%vec_get_Done [_ Hy']%vec_get_Done.
  rewrite Nat2Z.id, Hy in Hy'. injection Hy' as <-.
  assert (drop i v !! (Z.to_nat j - i)%nat = Some x) as Hxd.
  { rewrite lookup_drop. now replace (i + (Z.to_nat j - i))%nat with (Z.to_nat j) by lia. }
  assert (ge M x = true) as HMx.
  { apply Hall. eapply list_elem_of_lookup_2. exact Hxd. }
  split; [now apply ge_trans with M|].
  intros Hlt. destruct (gt y x) eqn:Hgt; [reflexivity | exfalso].
  apply (Hfirst _ _ Hxd); [lia|].
  apply Is_true_true, ge_ge_eq; [|exact HMx].
  apply ge_trans with y; [|exact HyM].
  apply not_gt_ge; [| |exact Hgt].
  - unfold nan_free in Hv. rewrite Forall_lookup in Hv. now apply (Hv _ _ Hy).
  - unfold nan_free in Hd. rewrite Forall_lookup in Hd. now apply (Hd _ _ Hxd).
Qed.

(** One round of the outer loop is the specification's "select and swap". *)
Lemma sort_body_select (w : list double) (i : nat) :
  nan_free w → (i < length w)%nat →
  sort_body (Z.of_nat (length w)) (Z.of_nat i) w = Done (Spec.select w i).
Proof.
  intros Hw Hi.
  destruct (find_max_first_max w (Z.of_nat (length w)) (Z.of_nat i) Hw)
    as (m & Hm & Hfm); [lia | lia |].
  destruct (first_max_index_spec w i Hw Hi) as (m' & Hm' & Hfm').
  assert (m = Z.of_nat m') as ->
    by (eapply first_max_unique; [| |exact Hfm|exact Hfm']; lia).
  destruct Hfm as [Hr _].
  destruct (vec_get_in_range w (Z.of_nat i)) as [x Hx]; [lia|].
  destruct (vec_get_in_range w (Z.of_nat m')) as [y Hy]; [lia|].
  unfold sort_body, Spec.select, Spec.exchange.
  rewrite Hm, Hm'. simpl. rewrite (swap_Done _ _ _ x y Hx Hy).
  apply vec_get_Done in Hx as [_ Hx], Hy as [_ Hy].
  rewrite !Nat2Z.id in *. now rewrite Hx, Hy.
Qed.

Lemma select_perm (w : list double) (i : nat) : w ≡ₚ Spec.select w i.
Proof.
  unfold Spec.select, Spec.exchange.
  destruct (Spec.first_max_index w i) as [m|]; [|reflexivity].
  destruct (w !! i) as [x|] eqn:Hx; [|reflexivity].
  destruct (w !! m) as [y|] eqn:Hy; [|reflexivity].
  symmetry. now apply Permutation_insert_swap.
Qed.

Lemma sort_loop_select (n : nat) :
  ∀ (count i : nat) (w : list double),
    nan_free w → length w = n → (i + count < n)%nat →
    for_loop (sort_body (Z.of_nat n)) count (Z.of_nat i) w =
    Done (fold_left Spec.select (seq i count) w).
Proof.
  induction count as [|count IH]; intros i w Hw Hlen Hi; [reflexivity|].
  simpl. rewrite <- Hlen at 1. rewrite sort_body_select by (assumption || lia).
  simpl. replace (Z.of_nat i + 1) with (Z.of_nat (S i)) by lia.
  apply IH.
  - unfold nan_free. now rewrite <- (select_perm w i).
  - now rewrite <- (Permutation_length (select_perm w i)).
  - lia.
Qed.

Lemma selection_sort_refines (v : list double) :
  nan_free v → int_sized v →
  selection_sort v = Done (Spec.sort_descending v).
Proof.
  intros Hv Hsz. unfold selection_sort, Spec.sort_descending, for_range.
  rewrite (int_of_size_small v Hsz).
  replace (Z.to_nat (Z.of_nat (length v) - 1 - 0)) with (length v - 1)%nat by lia.
  destruct (length v) as [|n] eqn:Hlen; [reflexivity|].
  rewrite <- Hlen. change 0 with (Z.of_nat 0).
  apply (sort_loop_select (length v)); [exact Hv | reflexivity | lia].
Qed.

(** ** Concatenation *)

Lemma append_loop_take (arr : list double) (size : Z) (m : list double) :
  0 <= size <= Z.of_nat (length arr) →
  append_loop arr size m = Done (m ++ take (Z.to_nat size) arr).
Proof.
  intros Hsz. unfold append_loop.
  destruct (for_range_inv (fun i acc => acc = m ++ take (Z.to_nat i) arr)
              (fun i acc => x ← vec_get arr i; mret (push_back acc x)) 0 size m)
    as (out & Hout & ->); [lia | now rewrite app_nil_r | | exact Hout].
  intros i acc Hi ->.
  destruct (vec_get_in_range arr i) as [x Hx]; [lia|].
  rewrite Hx. eexists; split; [reflexivity|].
  apply vec_get_Done in Hx as [_ Hx]. unfold push_back.
  replace (Z.to_nat (i + 1)) with (S (Z.to_nat i)) by lia.
  now rewrite (take_S_r _ _ _ Hx), app_assoc.
Qed.

Lemma append_loop_all (arr m : list double) :
  append_loop arr (Z.of_nat (length arr)) m = Done (m ++ arr).
Proof.
  rewrite append_loop_take by lia. now rewrite Nat2Z.id, firstn_all.
Qed.

Lemma merge_arrays_app (vs : vectors) :
  merge_arrays (Z.of_nat (length (arr1 vs))) (Z.of_nat (length (arr2 vs))) vs =
  Done (Vectors (arr1 vs) (arr2 vs) (mergedArray vs ++ arr1 vs ++ arr2 vs)).
Proof.
  unfold merge_arrays. rewrite append_loop_all. simpl.
  rewrite append_loop_all. simpl. now rewrite app_assoc.
Qed.

(** ** Streams *)

Local Ltac break_match :=
  match goal with
  | H : context [match ?x with _ => _ end] |- _ => destruct x eqn:?
  | |- context [match ?x with _ => _ end] => destruct x eqn:?
  end.

Lemma read_digits_nonneg (s : string) :
  ∀ acc count m n rest,
    0 <= acc → 0 <= count → read_digits s acc count = (m, n, rest) →
    0 <= m ∧ count <= n.
Proof.
  induction s as [|c s IH]; simpl; intros acc count m n rest Ha Hc H.
  - injection H as <- <- _. lia.
  - destruct (is_digit c) eqn:Hd.
    + apply IH in H; [lia | | lia].
      unfold is_digit in Hd. apply andb_true_iff in Hd as [Hd _].
      apply N.leb_le in Hd. unfold digit_value. lia.
    + injection H as <- <- _. lia.
Qed.

(** A successful [is >> n] leaves an [int] in [n]. *)
Lemma extract_int_range (s s' : istream) (old v : Z) :
  extract_int s old = (s', v) → failbit s' = false → INT_MIN <= v <= INT_MAX.
Proof.
  unfold extract_int. intros H Hf.
  repeat break_match; injection H as <- <-; simpl in Hf; try discriminate; lia.
Qed.

(** The value before the read only matters when the read fails. *)
Lemma extract_int_old (s s' : istream) (old old' v : Z) :
  extract_int s old = (s', v) →
  ∃ v', extract_int s old' = (s', v') ∧ (failbit s' = false → v' = v).
Proof.
  unfold extract_int. intros H.
  repeat break_match; injection H as <- <-; eexists; (split; [reflexivity|]);
    simpl; intros; congruence.
Qed.

(** Once the input is used up every read fails and the input stays used up. *)
Lemma extract_int_exhausted (s s' : istream) (old v : Z) :
  buf s = EmptyString → extract_int s old = (s', v) →
  buf s' = EmptyString ∧ failbit s' = true.
Proof.
  unfold extract_int. intros Hb H. rewrite Hb in H. simpl in H.
  destruct (negb (good s)); injection H as <- <-; simpl; auto.
Qed.

Lemma extract_double_exhausted (s s' : istream) (old v : double) :
  buf s = EmptyString → extract_double s old = (s', v) →
  buf s' = EmptyString ∧ failbit s' = true.
Proof.
  unfold extract_double. intros Hb H. rewrite Hb in H. simpl in H.
  destruct (negb (good s)); injection H as <- <-; simpl; auto.
Qed.

Lemma ignore_exhausted (s : istream) (n : Z) (delim : ascii) :
  buf s = EmptyString → buf (ignore s n delim) = EmptyString.
Proof.
  unfold ignore. intros Hb. rewrite Hb. simpl.
  destruct (negb (good s)); reflexivity.
Qed.

(** [ignore] on a stream that [clear] has reset does not fail. *)
Lemma ignore_clear_good (s : istream) (n : Z) (delim : ascii) :
  failbit (ignore (clear s) n delim) = false.
Proof.
  unfold ignore, clear, good. simpl.
  destruct (ignore_chars (buf s) n delim). reflexivity.
Qed.

(** ** [getValidSize] *)

Lemma getValidSize_unfold (fuel : nat) (size : Z) (w : world) :
  getValidSize (S fuel) size w =
  if size_rejected (cin_int size w)
  then getValidSize fuel (fst (cin_int size w)) (reprompt_size (snd (cin_int size w)))
  else Done (cin_int size w).
Proof.
  simpl. unfold size_rejected, reprompt_size. destruct (cin_int size w) as [v w1].
  reflexivity.
Qed.

Lemma size_attempt_S (k : nat) (size : Z) (w : world) :
  size_attempt (S k) size w =
  size_attempt k (fst (cin_int size w)) (reprompt_size (snd (cin_int size w))).
Proof.
  unfold size_attempt. simpl. destruct (cin_int size w) as [v w1]. reflexivity.
Qed.

(** [getValidSize] returns what the first attempt that passes the test read,
    and it returns as soon as there is one. *)
Lemma getValidSize_attempts (fuel : nat) :
  ∀ (size : Z) (w : world) (r : Z * world),
    getValidSize fuel size w = Done r ↔
    ∃ k, (k < fuel)%nat ∧
         (∀ j, (j < k)%nat → size_rejected (size_attempt j size w) = true) ∧
         size_attempt k size w = r ∧ size_rejected r = false.
Proof.
  induction fuel as [|fuel IH]; intros size w r.
  - simpl. split; [discriminate | intros (k & Hk & _); lia].
  - rewrite getValidSize_unfold.
    destruct (size_rejected (cin_int size w)) eqn:Hrej.
    + rewrite IH. split.
      * intros (k & Hk & Hbefore & Hat & Hok). exists (S k).
        split; [lia|]. split; [|now rewrite size_attempt_S].
        intros [|j] Hj; [exact Hrej|]. rewrite size_attempt_S. apply Hbefore. lia.
      * intros ([|k] & Hk & Hbefore & Hat & Hok).
        { unfold size_attempt in Hat. simpl in Hat. congruence. }
        exists k. split; [lia|]. split; [|now rewrite <- size_attempt_S].
        intros j Hj. rewrite <- size_attempt_S. apply Hbefore. lia.
    + split.
      * intros [= <-]. exists O. split; [lia|]. split; [intros j Hj; lia|].
        split; [reflexivity | exact Hrej].
      * intros ([|k] & Hk & Hbefore & Hat & Hok).
        { unfold size_attempt in Hat. simpl in Hat. now rewrite Hat. }
        specialize (Hbefore O ltac:(lia)). unfold size_attempt in Hbefore.
        simpl in Hbefore. congruence.
Qed.

Lemma cin_int_range (size v : Z) (w w' : world) :
  cin_int size w = (v, w') → fail (cin w') = false → INT_MIN <= v <= INT_MAX.
Proof.
  unfold cin_int. destruct (extract_int (cin w) size) as [s x] eqn:E.
  intros [= <- <-]. simpl. intros Hf. exact (extract_int_range _ _ _ _ E Hf).
Qed.

Lemma getValidSize_positive (fuel : nat) (size v : Z) (w w' : world) :
  getValidSize fuel size w = Done (v, w') →
  0 < v <= INT_MAX ∧ fail (cin w') = false.
Proof.
  intros (k & _ & _ & Hat & Hok)%getValidSize_attempts.
  unfold size_rejected in Hok. simpl in Hok.
  apply orb_false_iff in Hok as [Hf Hv]. apply Z.leb_gt in Hv.
  unfold size_attempt in Hat. destruct (size_attempts k size w) as [s0 w0].
  apply cin_int_range in Hat; [|exact Hf]. split; [lia | exact Hf].
Qed.

Lemma getValidSize_mono (fuel fuel' : nat) (size : Z) (w : world) (r : Z * world) :
  getValidSize fuel size w = Done r → (fuel <= fuel')%nat →
  getValidSize fuel' size w = Done r.
Proof.
  rewrite !getValidSize_attempts. intros (k & Hk & H) Hle. exists k. split; [lia | exact H].
Qed.

Lemma getValidSize_defined (fuel : nat) :
  ∀ (size : Z) (w : world), getValidSize fuel size w ≠ Undefined.
Proof.
  induction fuel as [|fuel IH]; intros size w; [discriminate|].
  rewrite getValidSize_unfold. destruct (size_rejected _); [apply IH | discriminate].
Qed.

(** The variable's value before the call does not matter. *)
Lemma getValidSize_init (fuel : nat) :
  ∀ (size size' : Z) (w : world),
    getValidSize fuel size w = getValidSize fuel size' w.
Proof.
  induction fuel as [|fuel IH]; intros size size' w; [reflexivity|].
  rewrite !getValidSize_unfold. unfold size_rejected, cin_int.
  destruct (extract_int (cin w) size) as [s v] eqn:E.
  destruct (extract_int_old _ _ _ size' _ E) as (v' & -> & Hv). simpl.
  unfold fail. destruct (failbit s) eqn:Hf; simpl.
  - apply IH.
  - rewrite Hv by reflexivity. destruct (v <=? 0); [apply IH | reflexivity].
Qed.

(** When the input is used up the loop goes on for ever. *)
Lemma getValidSize_exhausted (fuel : nat) :
  ∀ (size : Z) (w : world),
    buf (cin w) = EmptyString → getValidSize fuel size w = OutOfFuel.
Proof.
  induction fuel as [|fuel IH]; intros size w Hb; [reflexivity|].
  rewrite getValidSize_unfold. unfold size_rejected, cin_int.
  destruct (extract_int (cin w) size) as [s v] eqn:E.
  destruct (extract_int_exhausted _ _ _ _ Hb E) as [Hb' Hf]. simpl.
  unfold fail. rewrite Hf. simpl. apply IH.
  unfold reprompt_size, put, cin_ignore, cin_clear. simpl.
  now apply ignore_exhausted.
Qed.

(** ** [getValidNumber] *)

Lemma getValidNumber_mono (fuel : nat) :
  ∀ (fuel' : nat) (input : double) (w : world) (r : double * world),
    getValidNumber fuel input w = Done r → (fuel <= fuel')%nat →
    getValidNumber fuel' input w = Done r.
Proof.
  induction fuel as [|fuel IH]; intros fuel' input w r H Hle; [discriminate|].
  destruct fuel' as [|fuel']; [lia|]. simpl in *.
  destruct (cin_double input w) as [x w1].
  destruct (fail (cin w1)); [|exact H]. eapply IH; [exact H | lia].
Qed.

Lemma getValidNumber_defined (fuel : nat) :
  ∀ (input : double) (w : world), getValidNumber fuel input w ≠ Undefined.
Proof.
  induction fuel as [|fuel IH]; intros input w; [discriminate|]. simpl.
  destruct (cin_double input w) as [x w1].
  destruct (fail (cin w1)); [apply IH | discriminate].
Qed.

Lemma getValidNumber_exhausted (fuel : nat) :
  ∀ (input : double) (w : world),
    buf (cin w) = EmptyString → getValidNumber fuel input w = OutOfFuel.
Proof.
  induction fuel as [|fuel IH]; intros input w Hb; [reflexivity|]. simpl.
  unfold cin_double.
  destruct (extract_double (cin w) input) as [s v] eqn:E.
  destruct (extract_double_exhausted _ _ _ _ Hb E) as [Hb' Hf].
  unfold fail. simpl. rewrite Hf. apply IH.
  unfold put, cin_ignore, cin_clear. simpl. now apply ignore_exhausted.
Qed.

(** ** The doubles that [operator>>] delivers *)

Lemma shr_1_nonneg (mrs : shr_record) : 0 <= shr_m mrs → 0 <= shr_m (shr_1 mrs).
Proof. destruct mrs as [[|[p|p|]|[p|p|]] r s]; simpl; lia. Qed.

Lemma iter_shr_1_nonneg (p : positive) :
  ∀ mrs, 0 <= shr_m mrs → 0 <= shr_m (SpecFloat.iter_pos shr_1 p mrs).
Proof.
  induction p as [p IH|p IH|]; simpl; intros mrs H.
  - apply IH, IH, shr_1_nonneg, H.
  - apply IH, IH, H.
  - apply shr_1_nonneg, H.
Qed.

Lemma shr_fexp_nonneg (m e : Z) (l : location) :
  0 <= m → 0 <= shr_m (fst (shr_fexp prec emax m e l)).
Proof.
  intros H. unfold shr_fexp, shr.
  assert (0 <= shr_m (shr_record_of_loc m l)) as H' by (destruct l as [|[]]; exact H).
  destruct (fexp prec emax (Zdigits2 m + e) - e); simpl; auto using iter_shr_1_nonneg.
Qed.

Lemma binary_round_aux_not_nan (sx : bool) (mx ex : Z) (lx : location) :
  0 <= mx → is_nan (binary_round_aux prec emax sx mx ex lx) = false.
Proof.
  intros H. unfold binary_round_aux.
  pose proof (shr_fexp_nonneg mx ex lx H) as H1.
  destruct (shr_fexp prec emax mx ex lx) as [mrs' e']. simpl in H1.
  assert (0 <= round_nearest_even (shr_m mrs') (loc_of_shr_record mrs')) as H2.
  { unfold round_nearest_even. destruct (loc_of_shr_record mrs') as [|[]]; try lia.
    destruct (Z.even (shr_m mrs')); lia. }
  pose proof (shr_fexp_nonneg _ e' loc_Exact H2) as H3.
  destruct (shr_fexp prec emax _ e' loc_Exact) as [mrs'' e'']. simpl in H3.
  destruct (shr_m mrs''); [reflexivity | | lia].
  destruct (e'' <=? emax - prec); reflexivity.
Qed.

Lemma binary_normalize_not_nan (m e : Z) (s : bool) :
  is_nan (binary_normalize prec emax m e s) = false.
Proof.
  unfold binary_normalize, binary_round. destruct m as [|p|p]; [reflexivity| |];
    destruct (shl_align _ _ _); apply binary_round_aux_not_nan; lia.
Qed.

Lemma double_of_decimal_not_nan (neg : bool) (m e10 : Z) :
  0 <= m → is_nan (double_of_decimal neg m e10) = false.
Proof.
  intros H. unfold double_of_decimal.
  destruct (m =? 0); [reflexivity|].
  destruct (0 <=? e10) eqn:He; [apply binary_normalize_not_nan|].
  apply Z.leb_gt in He.
  set (d := 10 ^ (- e10)). set (s := Z.log2 d + 64).
  assert (0 < d) as Hd by (apply Z.pow_pos_nonneg; lia).
  pose proof (Z.div_pos (Z.shiftl m s) d) as Hq. unfold Z.div in Hq.
  destruct (Z.div_eucl (Z.shiftl m s) d) as [q r].
  apply binary_round_aux_not_nan. apply Hq; [|exact Hd].
  now apply Z.shiftl_nonneg.
Qed.

Lemma read_mantissa_nonneg (s rest : string) (m n nf : Z) :
  read_mantissa s = (m, n, nf, rest) → 0 <= m.
Proof.
  unfold read_mantissa.
  destruct (read_digits s 0 0) as [[m0 ni] s0] eqn:H0.
  apply read_digits_nonneg in H0 as [H0 _]; [|lia|lia].
  destruct s0 as [|c r]; [intros [= <- _ _ _]; exact H0|].
  destruct (Ascii.eqb_spec c ".") as [->|Hc].
  - destruct (read_digits r m0 0) as [[m1 nf1] r1] eqn:H1.
    apply read_digits_nonneg in H1 as [H1 _]; [|lia|lia].
    intros [= <- _ _ _]. exact H1.
  - intros H. replace m with m0; [exact H0|].
    destruct c as [[] [] [] [] [] [] [] []]; try congruence.
Qed.

(** A successful [is >> x] never leaves a NaN in [x]. *)
Lemma extract_double_not_nan (s s' : istream) (old v : double) :
  extract_double s old = (s', v) → failbit s' = false → is_nan v = false.
Proof.
  unfold extract_double.
  destruct (negb (good s)); [intros [= <- _]; discriminate|].
  destruct (skip_ws (buf s)) as [|c b]; [intros [= <- _]; discriminate|].
  destruct (read_sign (String c b)) as [neg b1].
  destruct (read_mantissa b1) as [[[m n] nf] b2] eqn:Hm.
  apply read_mantissa_nonneg in Hm.
  destruct (n =? 0); [intros [= <- _]; discriminate|].
  destruct (read_exponent b2) as [[e valid] b3].
  destruct (negb valid); [intros [= <- _]; discriminate|].
  pose proof (double_of_decimal_not_nan neg m (e - nf) Hm) as Hn.
  destruct (double_of_decimal neg m (e - nf)); intros [= <- <-]; intros Hf;
    (discriminate || reflexivity).
Qed.

Lemma getValidNumber_not_nan (fuel : nat) :
  ∀ (input x : double) (w w' : world),
    getValidNumber fuel input w = Done (x, w') → is_nan x = false.
Proof.
  induction fuel as [|fuel IH]; intros input x w w'; [discriminate|]. simpl.
  unfold cin_double. destruct (extract_double (cin w) input) as [s v] eqn:E.
  unfold fail. simpl. destruct (failbit s) eqn:Hf; [apply IH|].
  intros [= <- _]. exact (extract_double_not_nan _ _ _ _ E Hf).
Qed.

(** ** The reading loops *)

Lemma for_loop_Done_inv {St : Type} (I : Z → St → Prop) (body : Z → St → outcome St) :
  ∀ (count : nat) (i : Z) (s s' : St),
    I i s →
    (∀ k t t', i <= k < i + Z.of_nat count → I k t → body k t = Done t' → I (k + 1) t') →
    for_loop body count i s = Done s' → I (i + Z.of_nat count) s'.
Proof.
  induction count as [|count IH]; intros i s s' Hi Hstep.
  - intros [= <-]. now replace (i + Z.of_nat 0) with i by lia.
  - simpl. intros (t & Ht & Hl)%bind_Done.
    replace (i + Z.of_nat (S count)) with (i + 1 + Z.of_nat count) by lia.
    apply (IH (i + 1) t s'); [| |exact Hl].
    + apply (Hstep i s t); [lia | exact Hi | exact Ht].
    + intros k u u' Hk. apply Hstep. lia.
Qed.

Lemma for_loop_mono {St : Type} (body body' : Z → St → outcome St) :
  (∀ k t t', body k t = Done t' → body' k t = Done t') →
  ∀ (count : nat) (i : Z) (s s' : St),
    for_loop body count i s = Done s' → for_loop body' count i s = Done s'.
Proof.
  intros Hb. induction count as [|count IH]; intros i s s'; [trivial|].
  simpl. intros (t & Ht & Hl)%bind_Done. rewrite (Hb _ _ _ Ht). simpl. now apply IH.
Qed.

Lemma for_loop_defined {St : Type} (body : Z → St → outcome St) :
  (∀ k t, body k t ≠ Undefined) →
  ∀ (count : nat) (i : Z) (s : St), for_loop body count i s ≠ Undefined.
Proof.
  intros Hb. induction count as [|count IH]; intros i s; [discriminate|].
  simpl. specialize (Hb i s). destruct (body i s); simpl; [apply IH | discriminate | exact Hb].
Qed.

(** A loop whose first round never ends never ends. *)
Lemma for_range_stuck {St : Type} (body : Z → St → outcome St) (lo hi : Z) (s : St) :
  lo < hi → body lo s = OutOfFuel → for_range lo hi body s = OutOfFuel.
Proof. intros H Hb. rewrite for_range_step by exact H. now rewrite Hb. Qed.

Lemma read_elements_Done (fuel : nat) (size : Z) (num num' : double)
    (arr arr' : list double) (w w' : world) :
  read_elements fuel size num arr w = Done (num', arr', w') →
  length arr' = (length arr + Z.to_nat size)%nat ∧ (nan_free arr → nan_free arr').
Proof.
  unfold read_elements, for_range. intros H.
  apply (for_loop_Done_inv
           (fun i '(_, a, _) => length a = (length arr + Z.to_nat i)%nat ∧
                                 (nan_free arr → nan_free a))) in H.
  - now replace (0 + Z.of_nat (Z.to_nat (size - 0))) with (Z.of_nat (Z.to_nat size)) in H
      by lia; rewrite Nat2Z.id in H.
  - split; [simpl; lia | trivial].
  - intros k [[n a] u] [[n' a'] u'] Hk [Hlen Hnan].
    intros ([x u''] & Hx & [= <- <- <-])%bind_Done.
    unfold push_back. split.
    + rewrite length_app, Hlen. simpl. lia.
    + intros Ha. apply Forall_app. split; [now apply Hnan|].
      apply Forall_cons. split; [|constructor].
      eapply getValidNumber_not_nan. exact Hx.
Qed.

Lemma read_elements_mono (fuel fuel' : nat) (size : Z) (num : double)
    (arr : list double) (w : world) (r : double * list double * world) :
  read_elements fuel size num arr w = Done r → (fuel <= fuel')%nat →
  read_elements fuel' size num arr w = Done r.
Proof.
  unfold read_elements, for_range. intros H Hle. revert H. apply for_loop_mono.
  intros k [[n a] u] t'. intros ([x u'] & Hx & Hr)%bind_Done.
  now rewrite (getValidNumber_mono _ _ _ _ _ Hx Hle).
Qed.

Lemma read_elements_defined (fuel : nat) (size : Z) (num : double)
    (arr : list double) (w : world) :
  read_elements fuel size num arr w ≠ Undefined.
Proof.
  unfold read_elements, for_range. apply for_loop_defined.
  intros k [[n a] u]. pose proof (getValidNumber_defined fuel n u) as H.
  destruct (getValidNumber fuel n u) as [[x u']| |]; simpl;
    [discriminate | discriminate | congruence].
Qed.

Lemma clamp_range (size : Z) : 0 < size → 1 <= clamp size <= 10.
Proof. unfold clamp. destruct (Z.gtb_spec size 10); lia. Qed.

Lemma clamp_large (size : Z) : 10 < size → clamp size = clamp 10.
Proof. unfold clamp. destruct (Z.gtb_spec size 10); [reflexivity | lia]. Qed.

Lemma read_array_Done (fuel : nat) (size sz : Z) (num num' : double)
    (arr arr' : list double) (w w' : world) :
  read_array fuel size num arr w = Done (sz, num', arr', w') →
  sz = clamp size ∧
  length arr' = (length arr + Z.to_nat (clamp size))%nat ∧
  (nan_free arr → nan_free arr').
Proof.
  unfold read_array. intros ([[n a] u] & H & [= <- <- <- <-])%bind_Done.
  split; [reflexivity|]. eapply read_elements_Done. exact H.
Qed.

Lemma read_array_mono (fuel fuel' : nat) (size : Z) (num : double)
    (arr : list double) (w : world) (r : Z * double * list double * world) :
  read_array fuel size num arr w = Done r → (fuel <= fuel')%nat →
  read_array fuel' size num arr w = Done r.
Proof.
  unfold read_array. intros ([[n a] u] & H & Hr)%bind_Done Hle.
  now rewrite (read_elements_mono _ _ _ _ _ _ _ H Hle).
Qed.

Lemma read_array_defined (fuel : nat) (size : Z) (num : double)
    (arr : list double) (w : world) :
  read_array fuel size num arr w ≠ Undefined.
Proof.
  unfold read_array.
  pose proof (read_elements_defined fuel (clamp size) num arr
                (put " elements: " (put_int (clamp size) (put "Enter " w)))) as H.
  destruct (read_elements _ _ _ _ _) as [[[n a] u]| |]; simpl;
    [discriminate | discriminate | congruence].
Qed.

(** ** The printing loop *)

Lemma append_assoc (a b c : string) : ((a ++ b) ++ c = a ++ (b ++ c))%string.
Proof. induction a as [|x a IH]; simpl; [reflexivity | now rewrite IH]. Qed.

Lemma append_empty_r (a : string) : (a ++ EmptyString)%string = a.
Proof. induction a as [|x a IH]; simpl; [reflexivity | now rewrite IH]. Qed.

Lemma terminated_snoc (sep x : string) (l : list string) :
  Spec.terminated sep (l ++ [x]) = (Spec.terminated sep l ++ x ++ sep)%string.
Proof.
  induction l as [|y l IH]; simpl.
  - now rewrite append_empty_r.
  - now rewrite IH, !append_assoc.
Qed.

Lemma print_array_take (v : list double) (n : Z) (w : world) :
  0 <= n <= Z.of_nat (length v) →
  print_array v n w =
  Done (endl (put (Spec.terminated " " (map show_double (take (Z.to_nat n) v))) w)).
Proof.
  intros Hn. unfold print_array.
  destruct (for_range_inv
              (fun i u => u = put (Spec.terminated " "
                                     (map show_double (take (Z.to_nat i) v))) w)
              (fun i u => x ← vec_get v i; mret (put " " (put_double x u))) 0 n w)
    as (u & Hu & ->); [lia | | | now rewrite Hu].
  - unfold put. simpl. rewrite append_empty_r. now destruct w.
  - intros i u Hi ->.
    destruct (vec_get_in_range v i) as [x Hx]; [lia|].
    rewrite Hx. eexists; split; [reflexivity|].
    apply vec_get_Done in Hx as [_ Hx].
    replace (Z.to_nat (i + 1)) with (S (Z.to_nat i)) by lia.
    rewrite (take_S_r _ _ _ Hx), map_app. simpl (map _ [x]). rewrite terminated_snoc.
    unfold put_double, put. simpl. now rewrite !append_assoc.
Qed.

(** ** [main] *)

(** What [read_array] returns for a size that [getValidSize] accepted. *)
Lemma read_array_accepted (fuel : nat) (size sz : Z) (num num' : double)
    (arr' : list double) (w w' : world) :
  0 < size →
  read_array fuel size num [] w = Done (sz, num', arr', w') →
  sz = clamp size ∧ sz = Z.of_nat (length arr') ∧ 1 <= sz <= 10 ∧ nan_free arr'.
Proof.
  intros Hpos (-> & Hlen & Hnan)%read_array_Done.
  pose proof (clamp_range size Hpos). simpl in Hlen.
  split; [reflexivity|]. split; [lia|]. split; [lia|]. apply Hnan. constructor.
Qed.

(** The runs of [main] that return, step by step. *)
Lemma main_Done (fuel : nat) (w : world) (r : final) :
  main fuel w = Done r ↔
  ∃ s1 w1 n1 a1 w2 s2 w3 n2 a2 w4 w5 out,
    getValidSize fuel 0
      (put "How many would you want to place in the first array? (max 10): " (line w))
      = Done (s1, w1) ∧
    read_array fuel s1 (S754_zero false) [] w1 = Done (clamp s1, n1, a1, w2) ∧
    getValidSize fuel 0
      (put "How many would you want to place in the second array? (max 10): " (line w2))
      = Done (s2, w3) ∧
    read_array fuel s2 n1 [] w3 = Done (clamp s2, n2, a2, w4) ∧
    selection_sort (a1 ++ a2) = Done out ∧
    print_array out (int_of_size (length (a1 ++ a2)))
      (put "Merged and sorted array: " (line w4)) = Done w5 ∧
    r = Final (Vectors a1 a2 (a1 ++ a2)) out w5 0.
Proof.
  unfold main, main_with. split.
  - intros ([s1 w1] & H1 & H)%bind_Done.
    apply bind_Done in H as ([[[sz1 n1] a1] w2] & H2 & H).
    apply bind_Done in H as ([s2 w3] & H3 & H).
    apply bind_Done in H as ([[[sz2 n2] a2] w4] & H4 & H).
    apply bind_Done in H as (vs & H5 & H).
    apply bind_Done in H as (out & H6 & H).
    apply bind_Done in H as (w5 & H7 & [= <-]).
    simpl in H2, H4, H5.
    destruct (getValidSize_positive _ _ _ _ _ H1) as [Hs1 _].
    destruct (getValidSize_positive _ _ _ _ _ H3) as [Hs2 _].
    destruct (read_array_accepted _ _ _ _ _ _ _ _ (proj1 Hs1) H2) as (E1 & L1 & _).
    destruct (read_array_accepted _ _ _ _ _ _ _ _ (proj1 Hs2) H4) as (E2 & L2 & _).
    rewrite L1, L2 in H5.
    pose proof (merge_arrays_app (Vectors a1 a2 [])) as Hm. simpl in Hm.
    rewrite Hm in H5. injection H5 as <-. simpl in H6, H7.
    exists s1, w1, n1, a1, w2, s2, w3, n2, a2, w4, w5, out.
    rewrite <- E1, <- E2. auto 10.
  - intros (s1 & w1 & n1 & a1 & w2 & s2 & w3 & n2 & a2 & w4 & w5 & out &
            H1 & H2 & H3 & H4 & H5 & H6 & ->).
    destruct (getValidSize_positive _ _ _ _ _ H1) as [Hs1 _].
    destruct (getValidSize_positive _ _ _ _ _ H3) as [Hs2 _].
    destruct (read_array_accepted _ _ _ _ _ _ _ _ (proj1 Hs1) H2) as (_ & L1 & _).
    destruct (read_array_accepted _ _ _ _ _ _ _ _ (proj1 Hs2) H4) as (_ & L2 & _).
    rewrite H1. simpl. rewrite H2. simpl. rewrite H3. simpl. rewrite H4. simpl.
    rewrite L1, L2.
    pose proof (merge_arrays_app (Vectors a1 a2 [])) as Hm. simpl in Hm.
    rewrite Hm. simpl. rewrite H5. simpl. rewrite H6. reflexivity.
Qed.

(** More fuel does not change a run that returned. *)
Lemma main_mono (fuel fuel' : nat) (w : world) (r : final) :
  main fuel w = Done r → (fuel <= fuel')%nat → main fuel' w = Done r.
Proof.
  rewrite !main_Done.
  intros (s1 & w1 & n1 & a1 & w2 & s2 & w3 & n2 & a2 & w4 & w5 & out &
          H1 & H2 & H3 & H4 & H5) Hle.
  exists s1, w1, n1, a1, w2, s2, w3, n2, a2, w4, w5, out.
  split; [eapply getValidSize_mono; eassumption|].
  split; [eapply read_array_mono; eassumption|].
  split; [eapply getValidSize_mono; eassumption|].
  split; [eapply read_array_mono; eassumption | exact H5].
Qed.

(** What holds of the vectors when [main] returns. *)
Lemma main_vectors (fuel : nat) (w : world) (r : final) :
  main fuel w = Done r →
  (1 <= length (arr1 (inputs r)) <= 10)%nat ∧
  (1 <= length (arr2 (inputs r)) <= 10)%nat ∧
  mergedArray (inputs r) = arr1 (inputs r) ++ arr2 (inputs r) ∧
  nan_free (mergedArray (inputs r)) ∧
  int_sized (mergedArray (inputs r)) ∧
  selection_sort (mergedArray (inputs r)) = Done (sorted r) ∧
  exit_code r = 0.
Proof.
  intros (s1 & w1 & n1 & a1 & w2 & s2 & w3 & n2 & a2 & w4 & w5 & out &
          H1 & H2 & H3 & H4 & H5 & H6 & ->)%main_Done. simpl.
  destruct (getValidSize_positive _ _ _ _ _ H1) as [Hs1 _].
  destruct (getValidSize_positive _ _ _ _ _ H3) as [Hs2 _].
  destruct (read_array_accepted _ _ _ _ _ _ _ _ (proj1 Hs1) H2) as (_ & L1 & R1 & N1).
  destruct (read_array_accepted _ _ _ _ _ _ _ _ (proj1 Hs2) H4) as (_ & L2 & R2 & N2).
  split; [lia|]. split; [lia|]. split; [reflexivity|].
  split; [now apply Forall_app|].
  split; [unfold int_sized, INT_MAX; rewrite length_app; lia|].
  split; [exact H5 | reflexivity].
Qed.

(** No run of [main] reads or writes outside a vector. *)
Lemma main_defined (fuel : nat) (w : world) : main fuel w ≠ Undefined.
Proof.
  unfold main, main_with.
  set (wa := put _ (line w)).
  pose proof (getValidSize_defined fuel 0 wa) as D1.
  destruct (getValidSize fuel 0 wa) as [[s1 w1]| |] eqn:H1; [|discriminate|congruence].
  simpl.
  pose proof (read_array_defined fuel s1 (S754_zero false) [] w1) as D2.
  destruct (read_array fuel s1 _ [] w1) as [[[[sz1 n1] a1] w2]| |] eqn:H2;
    [|discriminate|congruence].
  simpl. set (wb := put _ (line w2)).
  pose proof (getValidSize_defined fuel 0 wb) as D3.
  destruct (getValidSize fuel 0 wb) as [[s2 w3]| |] eqn:H3; [|discriminate|congruence].
  simpl.
  pose proof (read_array_defined fuel s2 n1 [] w3) as D4.
  destruct (read_array fuel s2 n1 [] w3) as [[[[sz2 n2] a2] w4]| |] eqn:H4;
    [|discriminate|congruence].
  simpl.
  destruct (getValidSize_positive _ _ _ _ _ H1) as [Hs1 _].
  destruct (getValidSize_positive _ _ _ _ _ H3) as [Hs2 _].
  destruct (read_array_accepted _ _ _ _ _ _ _ _ (proj1 Hs1) H2) as (_ & L1 & R1 & _).
  destruct (read_array_accepted _ _ _ _ _ _ _ _ (proj1 Hs2) H4) as (_ & L2 & R2 & _).
  rewrite L1, L2.
  pose proof (merge_arrays_app (Vectors a1 a2 [])) as Hm. simpl in Hm.
  rewrite Hm. simpl.
  destruct (selection_sort_perm (a1 ++ a2)) as (out & Hout & Hp). rewrite Hout. simpl.
  rewrite print_array_take; [discriminate|].
  rewrite <- (Permutation_length Hp). split; [|apply int_of_size_le].
  rewrite int_of_size_small; [lia|].
  unfold int_sized, INT_MAX. rewrite length_app. lia.
Qed.

(** With no input left [main] never returns. *)
Lemma main_exhausted (fuel : nat) (w : world) :
  buf (cin w) = EmptyString → main fuel w = OutOfFuel.
Proof.
  intros Hb. unfold main, main_with.
  rewrite getValidSize_exhausted; [reflexivity | exact Hb].
Qed.

(** ** The variables that are not initialised *)

Lemma extract_double_old (s s' : istream) (old old' v : double) :
  extract_double s old = (s', v) →
  ∃ v', extract_double s old' = (s', v') ∧ (failbit s' = false → v' = v).
Proof.
  unfold extract_double.
  destruct (negb (good s)).
  { intros [= <- <-]. eexists; split; [reflexivity | discriminate]. }
  destruct (skip_ws (buf s)) as [|c b].
  { intros [= <- <-]. eexists; split; [reflexivity | discriminate]. }
  intros H. exists v. split; [exact H | reflexivity].
Qed.

Lemma getValidNumber_init (fuel : nat) :
  ∀ (input input' : double) (w : world),
    getValidNumber fuel input w = getValidNumber fuel input' w.
Proof.
  induction fuel as [|fuel IH]; intros input input' w; [reflexivity|].
  simpl. unfold cin_double.
  destruct (extract_double (cin w) input) as [s v] eqn:E.
  destruct (extract_double_old _ _ _ input' _ E) as (v' & -> & Hv).
  unfold fail. simpl. destruct (failbit s) eqn:Hf; [apply IH|].
  now rewrite Hv.
Qed.

Lemma read_array_init (fuel : nat) (size : Z) (num num' : double)
    (arr : list double) (w : world) :
  0 < size →
  read_array fuel size num arr w = read_array fuel size num' arr w.
Proof.
  intros Hpos. pose proof (clamp_range size Hpos) as Hc.
  unfold read_array, read_elements. rewrite !(for_range_step _ 0) by lia.
  now rewrite (getValidNumber_init fuel num num').
Qed.

Lemma main_with_init (size1 size2 : Z) (num : double) (fuel : nat) (w : world) :
  main_with size1 size2 num fuel w = main fuel w.
Proof.
  unfold main, main_with.
  rewrite (getValidSize_init fuel size1 0).
  destruct (getValidSize fuel 0 _) as [[s1 w1]| |] eqn:H1; [|reflexivity|reflexivity].
  destruct (getValidSize_positive _ _ _ _ _ H1) as [Hs1 _]. simpl.
  rewrite (read_array_init fuel s1 num (S754_zero false)) by lia.
  destruct (read_array fuel s1 _ [] w1) as [[[[sz1 n1] a1] w2]| |];
    [|reflexivity|reflexivity].
  simpl. now rewrite (getValidSize_init fuel size2 0).
Qed.

(** ** Digits at the head of the input *)

Lemma digit_not_sign (c : ascii) (s : string) :
  is_digit c = true → read_sign (String c s) = (false, String c s).
Proof.
  destruct c as [[] [] [] [] [] [] [] []]; vm_compute; congruence.
Qed.

(** What [read_digits] leaves does not start with a digit. *)
Lemma read_digits_rest (s : string) :
  ∀ acc count m n rest,
    read_digits s acc count = (m, n, rest) →
    ∀ acc' count', read_digits rest acc' count' = (acc', count', rest).
Proof.
  induction s as [|c s IH]; simpl; intros acc count m n rest H.
  - injection H as _ _ <-. reflexivity.
  - destruct (is_digit c) eqn:Hd; [eapply IH; exact H|].
    injection H as _ _ <-. intros acc' count'. simpl. now rewrite Hd.
Qed.

Lemma getValidSize_accept (fuel : nat) (size v : Z) (w w' : world) :
  cin_int size w = (v, w') → fail (cin w') = false → 0 < v →
  getValidSize (S fuel) size w = Done (v, w').
Proof.
  intros H Hf Hv. rewrite getValidSize_unfold, H. unfold size_rejected. simpl.
  rewrite Hf. simpl. now destruct (Z.leb_spec v 0); [lia|].
Qed.

(** ** Fuel: how much is enough *)

Lemma skip_ws_length (s : string) : (String.length (skip_ws s) <= String.length s)%nat.
Proof.
  induction s as [|c s IH]; simpl; [lia|]. destruct (is_space c); simpl; lia.
Qed.

Lemma read_sign_length (s r : string) (b : bool) :
  read_sign s = (b, r) → (String.length r <= String.length s)%nat.
Proof.
  destruct s as [|c s]; simpl; [intros [= _ <-]; simpl; lia|].
  destruct c as [[] [] [] [] [] [] [] []]; intros [= _ <-]; simpl; lia.
Qed.

Lemma read_digits_length (s : string) :
  ∀ acc count m n r, read_digits s acc count = (m, n, r) → (String.length r <= String.length s)%nat.
Proof.
  induction s as [|c s IH]; simpl; intros acc count m n r H.
  - injection H as _ _ <-. simpl. lia.
  - destruct (is_digit c); [apply IH in H; lia|]. injection H as _ _ <-. simpl. lia.
Qed.

Lemma extract_int_length (s s' : istream) (old v : Z) :
  extract_int s old = (s', v) → (String.length (buf s') <= String.length (buf s))%nat.
Proof.
  unfold extract_int.
  destruct (negb (good s)); [intros [= <- _]; simpl; lia|].
  pose proof (skip_ws_length (buf s)) as H0.
  destruct (skip_ws (buf s)) as [|c b] eqn:E; [intros [= <- _]; simpl; lia|].
  destruct (read_sign (String c b)) as [neg b1] eqn:E1.
  apply read_sign_length in E1.
  destruct (read_digits b1 0 0) as [[m count] rest] eqn:E2.
  apply read_digits_length in E2.
  destruct (count =? 0); [intros [= <- _]; simpl; lia|].
  destruct (_ >? INT_MAX); [intros [= <- _]; simpl; lia|].
  destruct (_ <? INT_MIN); intros [= <- _]; simpl; lia.
Qed.

Lemma read_mantissa_length (s r : string) (m n nf : Z) :
  read_mantissa s = (m, n, nf, r) → (String.length r <= String.length s)%nat.
Proof.
  unfold read_mantissa.
  destruct (read_digits s 0 0) as [[m0 ni] s0] eqn:H0.
  apply read_digits_length in H0.
  destruct s0 as [|c r0]; [intros [= _ _ _ <-]; exact H0|].
  destruct (Ascii.eqb_spec c ".") as [->|Hc].
  - destruct (read_digits r0 m0 0) as [[m1 nf1] r1] eqn:H1.
    apply read_digits_length in H1. intros [= _ _ _ <-]. simpl in H0. lia.
  - intros H. replace r with (String c r0); [exact H0|].
    destruct c as [[] [] [] [] [] [] [] []]; congruence.
Qed.

Lemma read_exponent_length (s r : string) (e : Z) (valid : bool) :
  read_exponent s = (e, valid, r) → (String.length r <= String.length s)%nat.
Proof.
  unfold read_exponent. destruct s as [|c s]; [intros [= _ _ <-]; simpl; lia|].
  destruct (is_exp_char c); [|intros [= _ _ <-]; simpl; lia].
  destruct (read_sign s) as [eneg s1] eqn:E1. apply read_sign_length in E1.
  destruct (read_digits s1 0 0) as [[x ne] s2] eqn:E2. apply read_digits_length in E2.
  intros [= _ _ <-]. simpl. lia.
Qed.

Lemma extract_double_length (s s' : istream) (old v : double) :
  extract_double s old = (s', v) → (String.length (buf s') <= String.length (buf s))%nat.
Proof.
  unfold extract_double.
  destruct (negb (good s)); [intros [= <- _]; simpl; lia|].
  pose proof (skip_ws_length (buf s)) as H0.
  destruct (skip_ws (buf s)) as [|c b] eqn:E; [intros [= <- _]; simpl; lia|].
  destruct (read_sign (String c b)) as [neg b1] eqn:E1.
  apply read_sign_length in E1.
  destruct (read_mantissa b1) as [[[m n] nf] b2] eqn:E2.
  apply read_mantissa_length in E2.
  destruct (n =? 0); [intros [= <- _]; simpl; lia|].
  destruct (read_exponent b2) as [[e valid] b3] eqn:E3.
  apply read_exponent_length in E3.
  destruct (negb valid); [intros [= <- _]; simpl; lia|].
  destruct (double_of_decimal neg m (e - nf)); intros [= <- _]; simpl; lia.
Qed.

Lemma ignore_chars_length (s : string) :
  ∀ n d, (String.length (fst (ignore_chars s n d)) <= String.length s)%nat ∧
         (0 < n → s ≠ EmptyString → (String.length (fst (ignore_chars s n d)) < String.length s)%nat).
Proof.
  induction s as [|c s IH]; intros n d; simpl.
  - split; [lia | congruence].
  - destruct (Z.leb_spec n 0); [simpl; split; lia|].
    destruct (Ascii.eqb c d); [simpl; split; lia|].
    destruct (IH (n - 1) d) as [H1 _]. split; lia.
Qed.

(** After a rejected attempt less input is left, or none. *)
Lemma ignore_clear_length (s : istream) (d : ascii) :
  (String.length (buf (ignore (clear s) 10000 d)) <= String.length (buf s))%nat ∧
  (buf s ≠ EmptyString → (String.length (buf (ignore (clear s) 10000 d)) < String.length (buf s))%nat).
Proof.
  unfold ignore, clear, good. simpl.
  destruct (ignore_chars_length (buf s) 10000 d) as [H1 H2].
  destruct (ignore_chars (buf s) 10000 d) as [rest eof]. simpl in *.
  split; [exact H1|]. apply H2. lia.
Qed.

Lemma cin_int_length (size v : Z) (w w' : world) :
  cin_int size w = (v, w') → (String.length (buf (cin w')) <= String.length (buf (cin w)))%nat.
Proof.
  unfold cin_int. destruct (extract_int (cin w) size) as [s x] eqn:E.
  intros [= _ <-]. simpl. exact (extract_int_length _ _ _ _ E).
Qed.

Lemma cin_double_length (input x : double) (w w' : world) :
  cin_double input w = (x, w') → (String.length (buf (cin w')) <= String.length (buf (cin w)))%nat.
Proof.
  unfold cin_double. destruct (extract_double (cin w) input) as [s y] eqn:E.
  intros [= _ <-]. simpl. exact (extract_double_length _ _ _ _ E).
Qed.

(** A call returns with no more input than it started with. *)
Lemma getValidSize_length (fuel : nat) :
  ∀ (size v : Z) (w w' : world),
    getValidSize fuel size w = Done (v, w') →
    (String.length (buf (cin w')) <= String.length (buf (cin w)))%nat.
Proof.
  induction fuel as [|fuel IH]; intros size v w w'; [discriminate|]. simpl.
  destruct (cin_int size w) as [x w1] eqn:E. apply cin_int_length in E.
  destruct (fail (cin w1) || (x <=? 0)); [|intros [= _ <-]; exact E].
  intros H. apply IH in H. simpl in H.
  pose proof (proj1 (ignore_clear_length (cin w1) "010")). lia.
Qed.

Lemma getValidNumber_length (fuel : nat) :
  ∀ (input x : double) (w w' : world),
    getValidNumber fuel input w = Done (x, w') →
    (String.length (buf (cin w')) <= String.length (buf (cin w)))%nat.
Proof.
  induction fuel as [|fuel IH]; intros input x w w'; [discriminate|]. simpl.
  destruct (cin_double input w) as [y w1] eqn:E. apply cin_double_length in E.
  destruct (fail (cin w1)); [|intros [= _ <-]; exact E].
  intros H. apply IH in H. simpl in H.
  pose proof (proj1 (ignore_clear_length (cin w1) "010")). lia.
Qed.

(** A loop that is still running after more rounds than there are characters
    in the input has used the input up, and runs for ever. *)
Lemma getValidSize_enough (fuel : nat) :
  ∀ (fuel' : nat) (size : Z) (w : world),
    (String.length (buf (cin w)) < fuel)%nat → (fuel <= fuel')%nat →
    getValidSize fuel size w = OutOfFuel → getValidSize fuel' size w = OutOfFuel.
Proof.
  induction fuel as [|fuel IH]; intros fuel' size w Hlen Hle; [lia|].
  destruct fuel' as [|fuel']; [lia|]. rewrite !getValidSize_unfold.
  destruct (cin_int size w) as [x w1] eqn:E. apply cin_int_length in E.
  destruct (size_rejected (x, w1)); [|discriminate]. simpl.
  destruct (ignore_clear_length (cin w1) "010") as [H1 H2].
  destruct (buf (cin w1)) as [|c b] eqn:Eb.
  - intros _. apply getValidSize_exhausted. unfold reprompt_size. simpl.
    apply ignore_exhausted. exact Eb.
  - apply IH; [|lia]. unfold reprompt_size. simpl.
    specialize (H2 ltac:(discriminate)). lia.
Qed.

Lemma getValidNumber_enough (fuel : nat) :
  ∀ (fuel' : nat) (input : double) (w : world),
    (String.length (buf (cin w)) < fuel)%nat → (fuel <= fuel')%nat →
    getValidNumber fuel input w = OutOfFuel → getValidNumber fuel' input w = OutOfFuel.
Proof.
  induction fuel as [|fuel IH]; intros fuel' input w Hlen Hle; [lia|].
  destruct fuel' as [|fuel']; [lia|]. simpl.
  destruct (cin_double input w) as [x w1] eqn:E. apply cin_double_length in E.
  destruct (fail (cin w1)); [|discriminate].
  destruct (ignore_clear_length (cin w1) "010") as [H1 H2].
  destruct (buf (cin w1)) as [|c b] eqn:Eb.
  - intros _. apply getValidNumber_exhausted. simpl.
    apply ignore_exhausted. exact Eb.
  - apply IH; [|lia]. simpl. specialize (H2 ltac:(discriminate)). lia.
Qed.

Lemma read_loop_enough (fuel fuel' : nat) :
  (fuel <= fuel')%nat →
  ∀ (count : nat) (i : Z) (num : double) (arr : list double) (w : world),
    (String.length (buf (cin w)) < fuel)%nat →
    for_loop (fun _ '(num, arr, w) =>
                '(num, w) ← getValidNumber fuel num w;
                mret (num, push_back arr num, w)) count i (num, arr, w) = OutOfFuel →
    for_loop (fun _ '(num, arr, w) =>
                '(num, w) ← getValidNumber fuel' num w;
                mret (num, push_back arr num, w)) count i (num, arr, w) = OutOfFuel.
Proof.
  intros Hle. induction count as [|count IH]; intros i num arr w Hlen; [discriminate|].
  simpl. destruct (getValidNumber fuel num w) as [[x w1]| |] eqn:E.
  - rewrite (getValidNumber_mono _ _ _ _ _ E Hle). simpl. apply IH.
    apply getValidNumber_length in E. lia.
  - intros _. now rewrite (getValidNumber_enough fuel fuel' num w Hlen Hle E).
  - discriminate.
Qed.

Lemma read_elements_length (fuel : nat) (size : Z) (num num' : double)
    (arr arr' : list double) (w w' : world) :
  read_elements fuel size num arr w = Done (num', arr', w') →
  (String.length (buf (cin w')) <= String.length (buf (cin w)))%nat.
Proof.
  unfold read_elements, for_range. intros H.
  apply (for_loop_Done_inv
           (fun _ '(_, _, u) => (String.length (buf (cin u)) <= String.length (buf (cin w)))%nat)) in H.
  - exact H.
  - lia.
  - intros k [[n a] u] [[n' a'] u'] _ Hu.
    intros ([x u''] & Hx & [= <- <- <-])%bind_Done.
    apply getValidNumber_length in Hx. lia.
Qed.

Lemma read_array_length (fuel : nat) (size sz : Z) (num num' : double)
    (arr arr' : list double) (w w' : world) :
  read_array fuel size num arr w = Done (sz, num', arr', w') →
  (String.length (buf (cin w')) <= String.length (buf (cin w)))%nat.
Proof.
  unfold read_array. intros ([[n a] u] & H & [= _ _ _ <-])%bind_Done.
  apply read_elements_length in H. exact H.
Qed.

Lemma read_array_enough (fuel fuel' : nat) (size : Z) (num : double)
    (arr : list double) (w : world) :
  (String.length (buf (cin w)) < fuel)%nat → (fuel <= fuel')%nat →
  read_array fuel size num arr w = OutOfFuel →
  read_array fuel' size num arr w = OutOfFuel.
Proof.
  intros Hlen Hle. unfold read_array, read_elements, for_range.
  set (w0 := put _ _).
  destruct (for_loop _ _ 0 (num, arr, w0)) as [[[n a] u]| |] eqn:E;
    [discriminate| |discriminate].
  intros _. now rewrite (read_loop_enough fuel fuel' Hle _ _ _ _ w0 Hlen E).
Qed.

(** With more fuel than the input has characters, a run of [main] that has
    not returned never will. *)
Lemma main_enough (fuel fuel' : nat) (w : world) :
  (String.length (buf (cin w)) < fuel)%nat → (fuel <= fuel')%nat →
  main fuel w = OutOfFuel → main fuel' w = OutOfFuel.
Proof.
  intros Hlen Hle. unfold main, main_with.
  set (wa := put _ (line w)).
  assert (String.length (buf (cin wa)) < fuel)%nat as La by exact Hlen.
  destruct (getValidSize fuel 0 wa) as [[s1 w1]| |] eqn:H1; [| |discriminate].
  2:{ intros _. now rewrite (getValidSize_enough fuel fuel' 0 wa La Hle H1). }
  rewrite (getValidSize_mono _ _ _ _ _ H1 Hle). simpl.
  assert (String.length (buf (cin w1)) < fuel)%nat as L1
    by (apply getValidSize_length in H1; lia).
  destruct (read_array fuel s1 _ [] w1) as [[[[sz1 n1] a1] w2]| |] eqn:H2;
    [| |discriminate].
  2:{ intros _. now rewrite (read_array_enough fuel fuel' _ _ _ w1 L1 Hle H2). }
  rewrite (read_array_mono _ _ _ _ _ _ _ H2 Hle). simpl.
  set (wb := put _ (line w2)).
  assert (String.length (buf (cin wb)) < fuel)%nat as Lb
    by (apply read_array_length in H2; unfold wb; simpl; lia).
  destruct (getValidSize fuel 0 wb) as [[s2 w3]| |] eqn:H3; [| |discriminate].
  2:{ intros _. now rewrite (getValidSize_enough fuel fuel' 0 wb Lb Hle H3). }
  rewrite (getValidSize_mono _ _ _ _ _ H3 Hle). simpl.
  assert (String.length (buf (cin w3)) < fuel)%nat as L3
    by (apply getValidSize_length in H3; lia).
  destruct (read_array fuel s2 n1 [] w3) as [[[[sz2 n2] a2] w4]| |] eqn:H4;
    [| |discriminate].
  2:{ intros _. now rewrite (read_array_enough fuel fuel' _ _ _ w3 L3 Hle H4). }
  rewrite (read_array_mono _ _ _ _ _ _ _ H4 Hle). simpl. trivial.
Qed.

(** A run is decided by its input: either [main] returns, with the same
    result for every allowance above the length of the input, or it never
    returns. *)
Lemma main_decided (w : world) :
  (∃ r, ∀ fuel, (String.length (buf (cin w)) < fuel)%nat → main fuel w = Done r) ∨
  (∀ fuel, main fuel w = OutOfFuel).
Proof.
  destruct (main (S (String.length (buf (cin w)))) w) as [r| |] eqn:E.
  - left. exists r. intros fuel Hf. eapply main_mono; [exact E | lia].
  - right. intros fuel.
    destruct (Nat.le_gt_cases (S (String.length (buf (cin w)))) fuel) as [Hle|Hgt].
    + eapply main_enough; [| exact Hle | exact E]. lia.
    + destruct (main fuel w) as [r| |] eqn:E'; [| reflexivity |].
      * apply (main_mono _ (S (String.length (buf (cin w))))) in E'; [congruence | lia].
      * now apply main_defined in E'.
  - now apply main_defined in E.
Qed.

(** * The properties of the specification *)

(** C1. For every merged sequence produced from valid inputs, after the
    selection sort runs the sequence is non-increasing: every element is
    greater than or equal to the next one.  First for any vector without NaN
    whose size is an [int], then for the vector that a run of [main] sorts. *)
Theorem C1_sorted_output_non_increasing :
  (∀ v : list double, nan_free v → int_sized v →
     ∃ out, selection_sort v = Done out ∧ Spec.non_increasing out) ∧
  (∀ (fuel : nat) (w : world) (r : final),
     main fuel w = Done r → Spec.non_increasing (sorted r)).
Proof.
  split.
  - intros v Hnan Hsz.
    destruct (selection_sort_sorted v Hnan Hsz) as (out & Hout & _ & Hs). eauto.
  - intros fuel w r (_ & _ & _ & Hnan & Hsz & Hsort & _)%main_vectors.
    destruct (selection_sort_sorted _ Hnan Hsz) as (out & Hout & _ & Hs).
    rewrite Hsort in Hout. now injection Hout as ->.
Qed.

Lemma C1_witness :
  (nan_free example_merged ∧ int_sized example_merged ∧
   ∃ out, selection_sort example_merged = Done out ∧ Spec.non_increasing out) ∧
  (∃ r, main 1 (start example_input) = Done r ∧ Spec.non_increasing (sorted r)).
Proof.
  assert (nan_free example_merged) as Hnan by (repeat constructor).
  assert (int_sized example_merged) as Hsz by (vm_compute; discriminate).
  split.
  - split; [exact Hnan|]. split; [exact Hsz|].
    exact (proj1 C1_sorted_output_non_increasing example_merged Hnan Hsz).
  - eexists. split; [vm_compute; reflexivity|].
    apply (proj2 C1_sorted_output_non_increasing 1%nat (start example_input)).
    vm_compute. reflexivity.
Defined.

(** C2. The sequence after the selection sort is a permutation of the
    sequence before it: the sort completes on every vector, NaN or not, with a
    rearrangement of it, and what [main] prints is a rearrangement of all the
    values that were entered. *)
Theorem C2_sort_is_permutation :
  (∀ v : list double, int_sized v → ∃ out, selection_sort v = Done out ∧ v ≡ₚ out) ∧
  (∀ (fuel : nat) (w : world) (r : final),
     main fuel w = Done r → arr1 (inputs r) ++ arr2 (inputs r) ≡ₚ sorted r).
Proof.
  split; [intros v _; apply selection_sort_perm|].
  intros fuel w r (_ & _ & Hm & _ & _ & Hsort & _)%main_vectors.
  destruct (selection_sort_perm (mergedArray (inputs r))) as (out & Hout & Hp).
  rewrite Hsort in Hout. injection Hout as ->. now rewrite <- Hm.
Qed.

Lemma C2_witness :
  (int_sized [d1; S754_nan; d3] ∧
   ∃ out, selection_sort [d1; S754_nan; d3] = Done out ∧ [d1; S754_nan; d3] ≡ₚ out) ∧
  (∃ r, main 1 (start example_input) = Done r ∧
        arr1 (inputs r) ++ arr2 (inputs r) ≡ₚ sorted r).
Proof.
  assert (int_sized [d1; S754_nan; d3]) as Hsz by (vm_compute; discriminate).
  split.
  - split; [exact Hsz|].
    exact (proj1 C2_sort_is_permutation [d1; S754_nan; d3] Hsz).
  - eexists. split; [vm_compute; reflexivity|].
    apply (proj2 C2_sort_is_permutation 1%nat (start example_input)).
    vm_compute. reflexivity.
Defined.

(** C3. The selection sort follows the specified algorithm: on a vector
    without NaN it computes what the specification's wording computes
    ([Spec.sort_descending]); in each round the scan with the strict [>]
    returns the first position holding the maximum of the remaining elements,
    and the round swaps the elements at [i] and at that position. *)
Theorem C3_sort_follows_algorithm (v : list double) :
  nan_free v → int_sized v →
  selection_sort v = Done (Spec.sort_descending v) ∧
  ∀ i, 0 <= i < Z.of_nat (length v) - 1 →
    ∃ m, find_max v (Z.of_nat (length v)) i = Done m ∧
         first_max v i (Z.of_nat (length v)) m ∧
         Spec.first_max_index v (Z.to_nat i) = Some (Z.to_nat m) ∧
         sort_body (Z.of_nat (length v)) i v = swap v i m.
Proof.
  intros Hnan Hsz. split; [now apply selection_sort_refines|].
  intros i Hi.
  destruct (find_max_first_max v (Z.of_nat (length v)) i Hnan) as (m & Hm & Hfm);
    [lia | lia |].
  destruct (first_max_index_spec v (Z.to_nat i) Hnan) as (m' & Hm' & Hfm'); [lia|].
  rewrite Z2Nat.id in Hfm' by lia.
  assert (m = Z.of_nat m') as ->
    by (eapply first_max_unique; [| |exact Hfm|exact Hfm']; lia).
  exists (Z.of_nat m'). split; [exact Hm|]. split; [exact Hfm|].
  split; [now rewrite Nat2Z.id|].
  unfold sort_body. now rewrite Hm.
Qed.

Lemma C3_witness :
  nan_free example_merged ∧ int_sized example_merged ∧
  selection_sort example_merged = Done (Spec.sort_descending example_merged) ∧
  Spec.sort_descending example_merged = example_sorted.
Proof.
  assert (nan_free example_merged) as Hnan by (repeat constructor).
  assert (int_sized example_merged) as Hsz by (vm_compute; discriminate).
  split; [exact Hnan|]. split; [exact Hsz|].
  split; [|vm_compute; reflexivity].
  exact (proj1 (C3_sort_follows_algorithm example_merged Hnan Hsz)).
Defined.

(** C4. Concatenation produces a new sequence equal to A's elements in
    order followed by B's elements in order, of length len(A) + len(B), and
    leaves A and B as they were; this is the vector that [main] sorts. *)
Theorem C4_concatenation :
  (∀ a b : list double,
     ∃ vs, merge_arrays (Z.of_nat (length a)) (Z.of_nat (length b)) (Vectors a b []) = Done vs ∧
           arr1 vs = a ∧ arr2 vs = b ∧ mergedArray vs = a ++ b ∧
           length (mergedArray vs) = (length a + length b)%nat) ∧
  (∀ (fuel : nat) (w : world) (r : final),
     main fuel w = Done r →
     mergedArray (inputs r) = arr1 (inputs r) ++ arr2 (inputs r) ∧
     length (mergedArray (inputs r)) =
       (length (arr1 (inputs r)) + length (arr2 (inputs r)))%nat).
Proof.
  split.
  - intros a b. pose proof (merge_arrays_app (Vectors a b [])) as H. simpl in H.
    eexists. split; [exact H|]. simpl. now rewrite length_app.
  - intros fuel w r (_ & _ & Hm & _)%main_vectors.
    split; [exact Hm|]. now rewrite Hm, length_app.
Qed.

Lemma C4_witness :
  ∃ r, main 1 (start example_input) = Done r ∧
       mergedArray (inputs r) = arr1 (inputs r) ++ arr2 (inputs r) ∧
       length (mergedArray (inputs r)) =
         (length (arr1 (inputs r)) + length (arr2 (inputs r)))%nat.
Proof.
  eexists. split; [vm_compute; reflexivity|].
  apply (proj2 C4_concatenation 1%nat (start example_input)).
  vm_compute. reflexivity.
Defined.

(** C6. The size collector never returns a non-positive value.  It never
    fails; it returns exactly what the first attempt that is not rejected has
    read, every earlier attempt having been rejected ([cin.fail()] or
    [size <= 0]) and followed by [reprompt_size] (flags cleared, rest of the
    line dropped, prompt written again); and what it returns is a positive
    [int] read without failure. *)
Theorem C6_getValidSize_returns_positive (fuel : nat) (size : Z) (w : world) :
  getValidSize fuel size w ≠ Undefined ∧
  (∀ r : Z * world,
     getValidSize fuel size w = Done r ↔
     ∃ k, (k < fuel)%nat ∧
          (∀ j, (j < k)%nat → size_rejected (size_attempt j size w) = true) ∧
          size_attempt k size w = r ∧ size_rejected r = false) ∧
  (∀ (v : Z) (w' : world),
     getValidSize fuel size w = Done (v, w') →
     0 < v <= INT_MAX ∧ fail (cin w') = false).
Proof.
  split; [apply getValidSize_defined|]. split.
  - intros r. exact (getValidSize_attempts fuel size w r).
  - intros v w'. exact (getValidSize_positive fuel size v w w').
Qed.

Lemma C6_witness :
  ∃ w', getValidSize 3 0 (start retry_input) = Done (7, w') ∧
        (0 < 7 <= INT_MAX ∧ fail (cin w') = false) ∧
        cout w' = ("Invalid input. Please enter a positive whole number: " ++
                   "Invalid input. Please enter a positive whole number: ")%string.
Proof.
  eexists. split; [vm_compute; reflexivity|]. split; [|reflexivity].
  apply (proj2 (proj2 (C6_getValidSize_returns_positive 3 0 (start retry_input))) 7).
  vm_compute. reflexivity.
Defined.

(** C7, as the specification states it, fails: the printer writes a space
    after the last element too.  For the vector 7 3 the output is "7 3 "
    and a line break, not "7 3" and a line break. *)
Lemma C7_counterexample :
  ∃ w, print_array [d7; d3] 2 (start EmptyString) = Done w ∧
       cout w = ("7 3 " ++ nl)%string ∧
       cout w ≠ (Spec.separated " " (map show_double [d7; d3]) ++ nl)%string.
Proof.
  eexists. split; [vm_compute; reflexivity|].
  split; [vm_compute; reflexivity | vm_compute; discriminate].
Qed.

(** C7, amended.  The printer writes each element of the sorted sequence
    followed by a single space (so one space stands between consecutive
    elements and one after the last), then a line break. *)
Theorem C7_printer_writes_space_after_each (v : list double) (w : world) :
  int_sized v →
  print_array v (int_of_size (length v)) w =
  Done (put nl (put (Spec.terminated " " (map show_double v)) w)).
Proof.
  intros Hsz. rewrite (int_of_size_small v Hsz).
  rewrite print_array_take by lia. now rewrite Nat2Z.id, firstn_all.
Qed.

Lemma C7_witness :
  int_sized example_sorted ∧
  print_array example_sorted (int_of_size (length example_sorted)) (start EmptyString) =
  Done (World (Istream EmptyString false false) ("5 3 2 2 1 " ++ nl)%string).
Proof.
  assert (int_sized example_sorted) as Hsz by (vm_compute; discriminate).
  split; [exact Hsz|].
  rewrite (C7_printer_writes_space_after_each example_sorted (start EmptyString) Hsz).
  vm_compute. reflexivity.
Defined.

(** C8. For A = [1, 5, 3] and B = [2, 2] the merged sequence is
    [1, 5, 3, 2, 2] and the sorted values are 5 3 2 2 1 in that order: for the
    concatenation and the sort on these vectors, and for the whole program on
    the input "3 / 1 5 3 / 2 / 2 2". *)
Theorem C8_example :
  merge_arrays 3 2 (Vectors example_A example_B []) =
    Done (Vectors example_A example_B example_merged) ∧
  selection_sort example_merged = Done example_sorted ∧
  map show_double example_sorted = ["5"; "3"; "2"; "2"; "1"]%string ∧
  ∃ r, main 1 (start example_input) = Done r ∧
       inputs r = Vectors example_A example_B example_merged ∧
       sorted r = example_sorted ∧
       cout (world_out r) =
         (stars ++ nl ++
          "How many would you want to place in the first array? (max 10): " ++
          "Enter 3 elements: " ++ stars ++ nl ++
          "How many would you want to place in the second array? (max 10): " ++
          "Enter 2 elements: " ++ stars ++ nl ++
          "Merged and sorted array: 5 3 2 2 1 " ++ nl)%string.
Proof.
  split; [vm_compute; reflexivity|]. split; [vm_compute; reflexivity|].
  split; [vm_compute; reflexivity|].
  eexists. split; [vm_compute; reflexivity|].
  split; [vm_compute; reflexivity|]. split; vm_compute; reflexivity.
Qed.

(** C9. The descending selection sort is idempotent: a sequence that is
    already non-increasing is left unchanged, every round finding
    [maxIndex = i] and swapping position [i] with itself; so is any sequence
    of length 0 or 1, and so is any output of the sort. *)
Theorem C9_sort_idempotent :
  (∀ v : list double, int_sized v → Spec.non_increasing v →
     selection_sort v = Done v ∧
     ∀ i, 0 <= i < Z.of_nat (length v) - 1 →
       find_max v (Z.of_nat (length v)) i = Done i ∧ swap v i i = Done v) ∧
  (∀ v : list double, (length v <= 1)%nat → selection_sort v = Done v) ∧
  (∀ v out : list double, nan_free v → int_sized v →
     selection_sort v = Done out → selection_sort out = Done out).
Proof.
  split; [|split].
  - intros v _ Hv. split; [now apply selection_sort_fixed|].
    intros i Hi.
    split; [apply find_max_sorted; (assumption || lia) | apply swap_self; lia].
  - intros v Hlen. apply selection_sort_fixed.
    intros i x y Hx Hy. apply lookup_lt_Some in Hy. lia.
  - intros v out Hnan Hsz Hout.
    destruct (selection_sort_sorted v Hnan Hsz) as (out' & Hout' & _ & Hs).
    rewrite Hout in Hout'. injection Hout' as <-. now apply selection_sort_fixed.
Qed.

Lemma C9_witness :
  (int_sized [d2; d2; d1] ∧ Spec.non_increasing [d2; d2; d1] ∧
   selection_sort [d2; d2; d1] = Done [d2; d2; d1]) ∧
  ((length [S754_nan] <= 1)%nat ∧ selection_sort [S754_nan] = Done [S754_nan]) ∧
  (nan_free example_merged ∧ int_sized example_merged ∧
   selection_sort example_merged = Done example_sorted ∧
   selection_sort example_sorted = Done example_sorted).
Proof.
  assert (int_sized [d2; d2; d1]) as Hsz3 by (vm_compute; discriminate).
  assert (Spec.non_increasing [d2; d2; d1]) as Hni.
  { intros [|[|[|i]]] x y Hx Hy; simpl in Hx, Hy; try discriminate;
      injection Hx as <-; injection Hy as <-; reflexivity. }
  assert (nan_free example_merged) as Hnan by (repeat constructor).
  assert (int_sized example_merged) as Hsz by (vm_compute; discriminate).
  assert (selection_sort example_merged = Done example_sorted) as Hs
    by (vm_compute; reflexivity).
  split; [|split].
  - split; [exact Hsz3|]. split; [exact Hni|].
    exact (proj1 (proj1 C9_sort_idempotent [d2; d2; d1] Hsz3 Hni)).
  - split; [simpl; lia|].
    apply (proj1 (proj2 C9_sort_idempotent) [S754_nan]). simpl. lia.
  - split; [exact Hnan|]. split; [exact Hsz|]. split; [exact Hs|].
    exact (proj2 (proj2 C9_sort_idempotent) example_merged example_sorted Hnan Hsz Hs).
Defined.

(** C10, as stated, fails: on the empty input the program never returns, so
    no run produces an exit code. *)
Lemma C10_counterexample :
  (∀ fuel, main fuel (start EmptyString) = OutOfFuel) ∧
  ¬ ∃ fuel r, main fuel (start EmptyString) = Done r.
Proof.
  assert (∀ fuel, main fuel (start EmptyString) = OutOfFuel) as H
    by (intros fuel; now apply main_exhausted).
  split; [exact H|]. intros (fuel & r & Hr). rewrite H in Hr. discriminate.
Qed.

(** C10, amended.  The program is deterministic: for every fixed standard
    input on which a run returns, every run that returns does so with exactly
    the same vectors, the same standard-output text and the same exit code 0,
    whatever the values of the variables that are not initialised and however
    long the runs are allowed to take; and on every input the program either
    returns in this way or never returns.  The result depends on nothing but
    the input. *)
Theorem C10_deterministic (w : world) :
  (∀ (size1 size2 size1' size2' : Z) (num num' : double) (fuel fuel' : nat)
     (r r' : final),
     main_with size1 size2 num fuel w = Done r →
     main_with size1' size2' num' fuel' w = Done r' →
     r = r' ∧ exit_code r = 0) ∧
  ((∃ r, ∀ (size1 size2 : Z) (num : double) (fuel : nat),
          (String.length (buf (cin w)) < fuel)%nat →
          main_with size1 size2 num fuel w = Done r) ∨
   (∀ (size1 size2 : Z) (num : double) (fuel : nat),
      main_with size1 size2 num fuel w = OutOfFuel)).
Proof.
  split.
  - intros size1 size2 size1' size2' num num' fuel fuel' r r'.
    rewrite !main_with_init. intros H H'.
    apply (main_mono fuel (Nat.max fuel fuel')) in H as Hm; [|lia].
    apply (main_mono fuel' (Nat.max fuel fuel')) in H' as Hm'; [|lia].
    rewrite Hm in Hm'. injection Hm' as <-.
    split; [reflexivity|]. now apply main_vectors in H.
  - destruct (main_decided w) as [[r Hr]|Hd].
    + left. exists r. intros. rewrite main_with_init. now apply Hr.
    + right. intros. rewrite main_with_init. apply Hd.
Qed.

Lemma C10_witness :
  ∃ r r', main_with 0 0 (S754_zero false) 1 (start example_input) = Done r ∧
          main_with 5 (-3) d7 2 (start example_input) = Done r' ∧
          r = r' ∧ exit_code r = 0.
Proof.
  eexists. eexists. split; [vm_compute; reflexivity|].
  split; [vm_compute; reflexivity|].
  apply (proj1 (C10_deterministic (start example_input))
           0 0 5 (-3) (S754_zero false) d7 1%nat 2%nat);
    vm_compute; reflexivity.
Defined.

(** * Further properties of the code *)

(** ** [getValidNumber], attempt by attempt *)

Lemma getValidNumber_unfold (fuel : nat) (input : double) (w : world) :
  getValidNumber (S fuel) input w =
  if number_rejected (cin_double input w)
  then getValidNumber fuel (fst (cin_double input w))
         (reprompt_number (snd (cin_double input w)))
  else Done (cin_double input w).
Proof.
  simpl. unfold number_rejected, reprompt_number.
  destruct (cin_double input w) as [v w1]. reflexivity.
Qed.

Lemma number_attempt_S (k : nat) (input : double) (w : world) :
  number_attempt (S k) input w =
  number_attempt k (fst (cin_double input w)) (reprompt_number (snd (cin_double input w))).
Proof.
  unfold number_attempt. simpl. destruct (cin_double input w) as [v w1]. reflexivity.
Qed.

Lemma getValidNumber_attempts (fuel : nat) :
  ∀ (input : double) (w : world) (r : double * world),
    getValidNumber fuel input w = Done r ↔
    ∃ k, (k < fuel)%nat ∧
         (∀ j, (j < k)%nat → number_rejected (number_attempt j input w) = true) ∧
         number_attempt k input w = r ∧ number_rejected r = false.
Proof.
  induction fuel as [|fuel IH]; intros input w r.
  - simpl. split; [discriminate | intros (k & Hk & _); lia].
  - rewrite getValidNumber_unfold.
    destruct (number_rejected (cin_double input w)) eqn:Hrej.
    + rewrite IH. split.
      * intros (k & Hk & Hbefore & Hat & Hok). exists (S k).
        split; [lia|]. split; [|now rewrite number_attempt_S].
        intros [|j] Hj; [exact Hrej|]. rewrite number_attempt_S. apply Hbefore. lia.
      * intros ([|k] & Hk & Hbefore & Hat & Hok).
        { unfold number_attempt in Hat. simpl in Hat. congruence. }
        exists k. split; [lia|]. split; [|now rewrite <- number_attempt_S].
        intros j Hj. rewrite <- number_attempt_S. apply Hbefore. lia.
    + split.
      * intros [= <-]. exists O. split; [lia|]. split; [intros j Hj; lia|].
        split; [reflexivity | exact Hrej].
      * intros ([|k] & Hk & Hbefore & Hat & Hok).
        { unfold number_attempt in Hat. simpl in Hat. now rewrite Hat. }
        specialize (Hbefore O ltac:(lia)). unfold number_attempt in Hbefore.
        simpl in Hbefore. congruence.
Qed.

(** A successful [is >> x] leaves a finite value in [x]. *)
Lemma extract_double_finite (s s' : istream) (old v : double) :
  extract_double s old = (s', v) → failbit s' = false → is_finite v = true.
Proof.
  unfold extract_double.
  destruct (negb (good s)); [intros [= <- _]; discriminate|].
  destruct (skip_ws (buf s)) as [|c b]; [intros [= <- _]; discriminate|].
  destruct (read_sign (String c b)) as [neg b1].
  destruct (read_mantissa b1) as [[[m n] nf] b2] eqn:Hm.
  apply read_mantissa_nonneg in Hm.
  destruct (n =? 0); [intros [= <- _]; discriminate|].
  destruct (read_exponent b2) as [[e valid] b3].
  destruct (negb valid); [intros [= <- _]; discriminate|].
  pose proof (double_of_decimal_not_nan neg m (e - nf) Hm) as Hn.
  destruct (double_of_decimal neg m (e - nf)); intros [= <- <-]; intros Hf;
    (discriminate || reflexivity).
Qed.

Lemma getValidNumber_finite (fuel : nat) (input x : double) (w w' : world) :
  getValidNumber fuel input w = Done (x, w') →
  is_finite x = true ∧ fail (cin w') = false.
Proof.
  intros (k & _ & _ & Hat & Hok)%getValidNumber_attempts.
  unfold number_rejected in Hok. simpl in Hok. split; [|exact Hok].
  unfold number_attempt in Hat. destruct (number_attempts k input w) as [x0 w0].
  unfold cin_double in Hat.
  destruct (extract_double (cin w0) x0) as [s v] eqn:E.
  injection Hat as <- <-. exact (extract_double_finite _ _ _ _ E Hok).
Qed.

Lemma finite_not_nan (x : double) : is_finite x = true → is_nan x = false.
Proof. destruct x; simpl; congruence. Qed.

(** ** What is written *)

Lemma copies_app (a b : nat) (s : string) :
  copies (a + b) s = (copies a s ++ copies b s)%string.
Proof.
  induction a as [|a IH]; simpl; [reflexivity|]. now rewrite IH, append_assoc.
Qed.

Lemma copies_snoc (k : nat) (s : string) :
  copies (S k) s = (copies k s ++ s)%string.
Proof.
  replace (S k) with (k + 1)%nat by lia. rewrite copies_app. simpl.
  now rewrite append_empty_r.
Qed.

Lemma cin_int_cout (size v : Z) (w w' : world) :
  cin_int size w = (v, w') → cout w' = cout w.
Proof.
  unfold cin_int. destruct (extract_int (cin w) size). now intros [= _ <-].
Qed.

Lemma cin_double_cout (input x : double) (w w' : world) :
  cin_double input w = (x, w') → cout w' = cout w.
Proof.
  unfold cin_double. destruct (extract_double (cin w) input). now intros [= _ <-].
Qed.

Lemma size_attempts_cout (k : nat) :
  ∀ (size : Z) (w : world),
    cout (snd (size_attempts k size w)) = (cout w ++ copies k size_prompt)%string.
Proof.
  induction k as [|k IH]; intros size w; simpl.
  - now rewrite append_empty_r.
  - destruct (cin_int size w) as [v w1] eqn:E. apply cin_int_cout in E.
    rewrite IH. unfold reprompt_size, put. simpl. rewrite E.
    now rewrite append_assoc.
Qed.

Lemma number_attempts_cout (k : nat) :
  ∀ (input : double) (w : world),
    cout (snd (number_attempts k input w)) = (cout w ++ copies k number_prompt)%string.
Proof.
  induction k as [|k IH]; intros input w; simpl.
  - now rewrite append_empty_r.
  - destruct (cin_double input w) as [v w1] eqn:E. apply cin_double_cout in E.
    rewrite IH. unfold reprompt_number, put. simpl. rewrite E.
    now rewrite append_assoc.
Qed.

Lemma getValidSize_cout (fuel : nat) (size v : Z) (w w' : world) :
  getValidSize fuel size w = Done (v, w') →
  ∃ k, (k < fuel)%nat ∧ size_attempt k size w = (v, w') ∧
       cout w' = (cout w ++ copies k size_prompt)%string.
Proof.
  intros (k & Hk & _ & Hat & _)%getValidSize_attempts.
  exists k. split; [exact Hk|]. split; [exact Hat|].
  unfold size_attempt in Hat. pose proof (size_attempts_cout k size w) as Hc.
  destruct (size_attempts k size w) as [s0 w0]. simpl in Hc.
  apply cin_int_cout in Hat. congruence.
Qed.

Lemma getValidNumber_cout (fuel : nat) (input x : double) (w w' : world) :
  getValidNumber fuel input w = Done (x, w') →
  ∃ k, (k < fuel)%nat ∧ number_attempt k input w = (x, w') ∧
       cout w' = (cout w ++ copies k number_prompt)%string.
Proof.
  intros (k & Hk & _ & Hat & _)%getValidNumber_attempts.
  exists k. split; [exact Hk|]. split; [exact Hat|].
  unfold number_attempt in Hat. pose proof (number_attempts_cout k input w) as Hc.
  destruct (number_attempts k input w) as [s0 w0]. simpl in Hc.
  apply cin_double_cout in Hat. congruence.
Qed.





(** ** The order of the output *)

Lemma ge_unsigned_zero (x y : double) :
  ge (unsigned_zero x) (unsigned_zero y) = ge x y.
Proof. destruct x, y; reflexivity. Qed.

Lemma unsigned_zero_idemp (x : double) :
  unsigned_zero (unsigned_zero x) = unsigned_zero x.
Proof. destruct x; reflexivity. Qed.

(** Doubles that compare equal differ at most in the sign of a zero. *)
Lemma eq_unsigned_zero (x y : double) :
  eq x y = true → unsigned_zero x = unsigned_zero y.
Proof.
  unfold eq, SFeqb, SFcompare.
  destruct x as [sx|sx| |sx mx ex], y as [sy|sy| |sy my ey]; simpl;
    try reflexivity; try (intros; discriminate);
    try (destruct sx; intros; discriminate); try (destruct sy; intros; discriminate).
  - destruct sx, sy; intros; (discriminate || reflexivity).
  - change (PosDef.Pos.compare_cont Eq mx my) with (Pos.compare_cont Eq mx my).
    rewrite Pos.compare_cont_spec. simpl.
    destruct sx, sy; try (intros; discriminate);
      destruct (Z.compare_spec ex ey); try (intros; discriminate);
      destruct (Pos.compare_spec mx my); try (intros; discriminate);
      subst; reflexivity.
Qed.

Lemma unsigned_zero_eq (x y : double) :
  is_nan x = false → unsigned_zero x = unsigned_zero y → eq x y = true.
Proof.
  intros Hx H. apply ge_ge_eq.
  - rewrite <- ge_unsigned_zero, H, ge_unsigned_zero. apply ge_refl.
    destruct y; try reflexivity. destruct x; discriminate.
  - rewrite <- ge_unsigned_zero, <- H, ge_unsigned_zero. now apply ge_refl.
Qed.

Lemma non_increasing_tail (x : double) (l : list double) :
  Spec.non_increasing (x :: l) → Spec.non_increasing l.
Proof. intros H i a b Ha Hb. exact (H (S i) a b Ha Hb). Qed.

Lemma non_increasing_Sorted (l : list double) :
  Spec.non_increasing l → Sorted (fun x y => ge x y = true) l.
Proof.
  induction l as [|x l IH]; intros H; constructor.
  - apply IH. eapply non_increasing_tail. exact H.
  - destruct l as [|y l]; constructor. exact (H O x y eq_refl eq_refl).
Qed.

Lemma non_increasing_StronglySorted (l : list double) :
  Spec.non_increasing l → StronglySorted (fun x y => ge x y = true) l.
Proof.
  intros H. apply Sorted.Sorted_StronglySorted; [|now apply non_increasing_Sorted].
  intros x y z. apply ge_trans.
Qed.

(** Two non-increasing arrangements of the same values agree up to the sign
    of zeros. *)
Lemma non_increasing_unique (l1 l2 : list double) :
  Spec.non_increasing l1 → Spec.non_increasing l2 → l1 ≡ₚ l2 →
  unsigned_zero <$> l1 = unsigned_zero <$> l2.
Proof.
  intros H1 H2 Hp.
  apply (StronglySorted_unique_strong (fun x y => ge x y = true)).
  - intros x1 x2 [y1 [-> _]]%list_elem_of_fmap [y2 [-> _]]%list_elem_of_fmap Ha Hb.
    rewrite <- (unsigned_zero_idemp y1), <- (unsigned_zero_idemp y2).
    apply eq_unsigned_zero. now apply ge_ge_eq.
  - apply (StronglySorted_fmap unsigned_zero (fun x y => ge x y = true)).
    + intros x y. now rewrite ge_unsigned_zero.
    + now apply non_increasing_StronglySorted.
  - apply (StronglySorted_fmap unsigned_zero (fun x y => ge x y = true)).
    + intros x y. now rewrite ge_unsigned_zero.
    + now apply non_increasing_StronglySorted.
  - now apply fmap_Permutation.
Qed.

Lemma selection_sort_order_free (a b : list double) :
  nan_free a → int_sized a → a ≡ₚ b →
  ∃ oa ob, selection_sort a = Done oa ∧ selection_sort b = Done ob ∧
           Forall2 (fun x y => eq x y = true) oa ob.
Proof.
  intros Hnan Hsz Hp.
  assert (nan_free b) as Hnb by (unfold nan_free; now rewrite <- Hp).
  assert (int_sized b) as Hsb by (unfold int_sized; now rewrite <- (Permutation_length Hp)).
  destruct (selection_sort_sorted a Hnan Hsz) as (oa & Ha & Hpa & Hsa).
  destruct (selection_sort_sorted b Hnb Hsb) as (ob & Hb & Hpb & Hsb').
  exists oa, ob. split; [exact Ha|]. split; [exact Hb|].
  assert (unsigned_zero <$> oa = unsigned_zero <$> ob) as Hu.
  { apply non_increasing_unique; [assumption..|].
    now rewrite <- Hpa, Hp, Hpb. }
  assert (nan_free oa) as Hno by (unfold nan_free; now rewrite <- Hpa).
  clear - Hu Hno. revert ob Hu. induction oa as [|x oa IH]; intros [|y ob] Hu;
    try discriminate; constructor; rewrite !fmap_cons in Hu.
  - injection Hu as Hx _. apply unsigned_zero_eq; [|exact Hx].
    now apply Forall_cons in Hno as [? _].
  - injection Hu as _ Hr. apply IH; [|exact Hr]. now apply Forall_cons in Hno as [_ ?].
Qed.

Lemma selection_sort_extremes (v out : list double) :
  nan_free v → int_sized v → selection_sort v = Done out →
  (∀ (a b : nat) (x y : double),
     (a < b)%nat → out !! a = Some x → out !! b = Some y → ge x y = true) ∧
  (∀ m x : double, head out = Some m → x ∈ v → ge m x = true) ∧
  (∀ m x : double, last out = Some m → x ∈ v → ge x m = true).
Proof.
  intros Hnan Hsz Hout.
  destruct (selection_sort_sorted v Hnan Hsz) as (out' & Hout' & Hp & Hs).
  rewrite Hout in Hout'. injection Hout' as <-.
  assert (nan_free out) as Hno by (unfold nan_free; now rewrite <- Hp).
  assert (∀ (a b : nat) (x y : double),
            (a < b)%nat → out !! a = Some x → out !! b = Some y → ge x y = true) as Hpairs.
  { intros a b x y Hab Hx Hy.
    apply (non_increasing_pairs out Hs (b - a - 1) a); [exact Hx|].
    now replace (a + S (b - a - 1))%nat with b by lia. }
  assert (∀ (k : nat) (x : double), out !! k = Some x → ge x x = true) as Hrefl.
  { intros k x Hx. apply ge_refl. unfold nan_free in Hno.
    rewrite Forall_lookup in Hno. exact (Hno _ _ Hx). }
  split; [exact Hpairs|]. split.
  - intros m x Hm Hx. rewrite Hp in Hx.
    apply list_elem_of_lookup in Hx as [k Hk]. rewrite head_lookup in Hm.
    destruct k as [|k]; [|now apply (Hpairs O (S k)); [lia|..]].
    rewrite Hm in Hk. injection Hk as ->. now apply (Hrefl O).
  - intros m x Hm Hx. rewrite Hp in Hx.
    apply list_elem_of_lookup in Hx as [k Hk]. rewrite last_lookup in Hm.
    pose proof (lookup_lt_Some _ _ _ Hk) as Hlt.
    destruct (decide (k = pred (length out))) as [->|Hne].
    + rewrite Hm in Hk. injection Hk as ->. now apply (Hrefl _ _ Hm).
    + apply (Hpairs k (pred (length out))); [lia | exact Hk | exact Hm].
Qed.

(** ** Which numerals are sizes *)

(** [is >> n] on an input whose first field starts with a digit: the value of
    the digits when it is an [int], else [INT_MAX] with [failbit]. *)
Lemma extract_int_field (input : string) (c : ascii) (s rest : string) (n len old : Z) :
  skip_ws input = String c s →
  is_digit c = true →
  read_digits (String c s) 0 0 = (n, len, rest) →
  extract_int (Istream input false false) old =
  (Istream rest (n >? INT_MAX) (is_empty rest), if n >? INT_MAX then INT_MAX else n).
Proof.
  intros Hws Hc Hr. unfold extract_int. simpl good. simpl negb. cbv iota.
  simpl buf. rewrite Hws, (digit_not_sign c s Hc), Hr.
  assert (0 <= n ∧ 1 <= len) as [H0 H1].
  { simpl in Hr. rewrite Hc in Hr. apply read_digits_nonneg in Hr; [lia | | lia].
    unfold is_digit in Hc. apply andb_true_iff in Hc as [Hc _].
    apply N.leb_le in Hc. unfold digit_value. lia. }
  destruct (Z.eqb_spec len 0); [lia|].
  destruct (Z.gtb_spec n INT_MAX); [reflexivity|].
  destruct (Z.ltb_spec n INT_MIN); [unfold INT_MIN in *; lia | reflexivity].
Qed.

(** The same with a minus sign in front: never a positive value. *)
Lemma extract_int_negative (input : string) (c : ascii) (s rest : string) (n len old : Z) :
  skip_ws input = String "-" (String c s) →
  is_digit c = true →
  read_digits (String c s) 0 0 = (n, len, rest) →
  ∃ fb v, extract_int (Istream input false false) old =
          (Istream rest fb (is_empty rest), v) ∧ v <= 0.
Proof.
  intros Hws Hc Hr. unfold extract_int. simpl good. simpl negb. cbv iota.
  simpl buf. rewrite Hws. cbv beta iota.
  change (read_sign (String "-" (String c s))) with (true, String c s).
  cbv beta iota. rewrite Hr.
  assert (0 <= n ∧ 1 <= len) as [H0 H1].
  { simpl in Hr. rewrite Hc in Hr. apply read_digits_nonneg in Hr; [lia | | lia].
    unfold is_digit in Hc. apply andb_true_iff in Hc as [Hc _].
    apply N.leb_le in Hc. unfold digit_value. lia. }
  destruct (Z.eqb_spec len 0); [lia|].
  destruct (Z.gtb_spec (- n) INT_MAX); [unfold INT_MAX in *; lia|].
  destruct (Z.ltb_spec (- n) INT_MIN); eexists; eexists; (split; [reflexivity|]);
    unfold INT_MIN; lia.
Qed.

Lemma size_numeral_accepted (input : string) (c : ascii) (s rest : string)
    (n len size : Z) (out : string) :
  skip_ws input = String c s →
  is_digit c = true →
  read_digits (String c s) 0 0 = (n, len, rest) →
  (size_rejected (cin_int size (World (Istream input false false) out)) = false ↔
   0 < n <= INT_MAX) ∧
  (0 < n <= INT_MAX →
   ∀ fuel, getValidSize (S fuel) size (World (Istream input false false) out) =
           Done (n, World (Istream rest false (is_empty rest)) out)).
Proof.
  intros Hws Hc Hr.
  assert (cin_int size (World (Istream input false false) out) =
          (if n >? INT_MAX then INT_MAX else n,
           World (Istream rest (n >? INT_MAX) (is_empty rest)) out)) as E.
  { unfold cin_int. simpl cin. now rewrite (extract_int_field _ _ _ _ _ _ size Hws Hc Hr). }
  split.
  - rewrite E. unfold size_rejected, fail. simpl.
    destruct (Z.gtb_spec n INT_MAX); simpl; [split; [discriminate | lia]|].
    destruct (Z.leb_spec n 0); split; (discriminate || lia || reflexivity).
  - intros Hn fuel. apply getValidSize_accept; [|reflexivity|lia].
    rewrite E. destruct (Z.gtb_spec n INT_MAX); [lia | reflexivity].
Qed.

Lemma size_numeral_negative (input : string) (c : ascii) (s rest : string)
    (n len size : Z) (out : string) :
  skip_ws input = String "-" (String c s) →
  is_digit c = true →
  read_digits (String c s) 0 0 = (n, len, rest) →
  size_rejected (cin_int size (World (Istream input false false) out)) = true.
Proof.
  intros Hws Hc Hr.
  destruct (extract_int_negative _ _ _ _ _ _ size Hws Hc Hr) as (fb & v & E & Hv).
  unfold cin_int. simpl cin. rewrite E. unfold size_rejected. simpl.
  destruct (Z.leb_spec v 0); [apply orb_true_r | lia].
Qed.

(** ** A rejected line is dropped whole *)

Lemma one_line_skip_ws (s : string) : one_line s = true → one_line (skip_ws s) = true.
Proof.
  induction s as [|c s IH]; simpl; [trivial|].
  intros [Hc Hs]%andb_true_iff. destruct (is_space c); [now apply IH|].
  simpl. now rewrite Hc, Hs.
Qed.

Lemma one_line_read_sign (s r : string) (b : bool) :
  read_sign s = (b, r) → one_line s = true → one_line r = true.
Proof.
  destruct s as [|c s]; [now intros [= _ <-]|].
  intros H [Hc Hs]%andb_true_iff.
  assert (r = s ∨ r = String c s) as [->| ->];
    [|exact Hs|apply andb_true_intro; split; assumption].
  destruct c as [[] [] [] [] [] [] [] []]; injection H as _ <-; auto.
Qed.

Lemma one_line_read_digits (s : string) :
  ∀ acc count m n r,
    read_digits s acc count = (m, n, r) → one_line s = true → one_line r = true.
Proof.
  induction s as [|c s IH]; simpl; intros acc count m n r H.
  - now injection H as _ _ <-.
  - intros [Hc Hs]%andb_true_iff. destruct (is_digit c); [eapply IH; eassumption|].
    injection H as _ _ <-. simpl. now rewrite Hc, Hs.
Qed.

Lemma extract_int_one_line (s s' : istream) (old v : Z) :
  extract_int s old = (s', v) → one_line (buf s) = true → one_line (buf s') = true.
Proof.
  unfold extract_int. intros H Hl.
  destruct (negb (good s)); [now injection H as <- _|].
  apply one_line_skip_ws in Hl.
  destruct (skip_ws (buf s)) as [|c b] eqn:E; [now injection H as <- _|].
  destruct (read_sign (String c b)) as [neg b1] eqn:E1.
  apply (one_line_read_sign _ _ _ E1) in Hl.
  destruct (read_digits b1 0 0) as [[m count] rest] eqn:E2.
  apply (one_line_read_digits _ _ _ _ _ _ E2) in Hl.
  destruct (count =? 0); [now injection H as <- _|].
  destruct (_ >? INT_MAX); [now injection H as <- _|].
  destruct (_ <? INT_MIN); now injection H as <- _.
Qed.

Lemma skip_ws_app (l t : string) :
  skip_ws l ≠ EmptyString → skip_ws (l ++ t) = (skip_ws l ++ t)%string.
Proof.
  induction l as [|c l IH]; simpl; [congruence|].
  destruct (is_space c); [exact IH | reflexivity].
Qed.

Lemma read_sign_app (c : ascii) (x t : string) :
  read_sign (String c (x ++ t)) =
  (fst (read_sign (String c x)), (snd (read_sign (String c x)) ++ t)%string).
Proof. destruct c as [[] [] [] [] [] [] [] []]; reflexivity. Qed.

Lemma read_digits_line (x t : string) :
  ∀ acc count,
    read_digits (x ++ String "010" t) acc count =
    (fst (read_digits x acc count),
     (snd (read_digits x acc count) ++ String "010" t)%string).
Proof.
  induction x as [|c x IH]; intros acc count; simpl; [reflexivity|].
  destruct (is_digit c); [apply IH | reflexivity].
Qed.

Lemma is_empty_line (r t : string) : is_empty (r ++ String "010" t) = false.
Proof. destruct r; reflexivity. Qed.

(** A field that starts on a line ends on it: what follows the line's break
    plays no part in the read. *)
Lemma extract_int_line (l t : string) (old v : Z) (s' : istream) :
  skip_ws l ≠ EmptyString →
  extract_int (Istream l false false) old = (s', v) →
  extract_int (Istream (l ++ String "010" t) false false) old =
  (Istream (buf s' ++ String "010" t) (failbit s') false, v).
Proof.
  intros Hl. unfold extract_int.
  change (negb (good (Istream l false false))) with false.
  change (negb (good (Istream (l ++ String "010" t) false false))) with false.
  cbv iota.
  change (buf (Istream l false false)) with l.
  change (buf (Istream (l ++ String "010" t) false false)) with (l ++ String "010" t)%string.
  rewrite (skip_ws_app l _ Hl).
  destruct (skip_ws l) as [|c b]; [congruence|].
  change (String c b ++ String "010" t)%string with (String c (b ++ String "010" t)).
  cbv iota. rewrite read_sign_app.
  destruct (read_sign (String c b)) as [neg b1].
  change (fst (neg, b1)) with neg. change (snd (neg, b1)) with b1. cbv iota beta.
  rewrite read_digits_line.
  destruct (read_digits b1 0 0) as [[m count] rest].
  change (fst (m, count, rest)) with (m, count).
  change (snd (m, count, rest)) with rest. cbv iota beta.
  rewrite is_empty_line.
  destruct (count =? 0); [now intros [= <- <-]|].
  destruct (_ >? INT_MAX); [now intros [= <- <-]|].
  destruct (_ <? INT_MIN); now intros [= <- <-].
Qed.

Lemma ignore_chars_line (r t : string) :
  ∀ n, one_line r = true → Z.of_nat (String.length r) < n →
       ignore_chars (r ++ String "010" t) n "010" = (t, false).
Proof.
  induction r as [|c r IH]; intros n Hl Hn; simpl in *.
  - destruct (Z.leb_spec n 0); [lia | reflexivity].
  - apply andb_true_iff in Hl as [Hc Hr].
    destruct (Z.leb_spec n 0); [lia|].
    destruct (Ascii.eqb c "010"); [discriminate|]. apply IH; [exact Hr | lia].
Qed.

Lemma reprompt_line (r t out : string) (fb : bool) :
  one_line r = true → Z.of_nat (String.length r) < 10000 →
  ignore (clear (Istream (r ++ String "010" t) fb false)) 10000 "010" =
  Istream t false false.
Proof.
  intros Hl Hn. unfold ignore, clear, good. simpl.
  rewrite ignore_chars_line; [reflexivity | exact Hl | lia].
Qed.

Lemma getValidSize_drops_line (fuel : nat) (size : Z) (l t out : string) :
  one_line l = true → Z.of_nat (String.length l) < 10000 →
  skip_ws l ≠ EmptyString →
  size_rejected (cin_int size (World (Istream l false false) out)) = true →
  getValidSize (S fuel) size (World (Istream (l ++ String "010" t) false false) out) =
  getValidSize fuel size (World (Istream t false false) (out ++ size_prompt)).
Proof.
  intros Hl Hn Hws Hrej. rewrite getValidSize_unfold.
  unfold cin_int in *. simpl cin in *.
  destruct (extract_int (Istream l false false) size) as [s' v] eqn:E.
  rewrite (extract_int_line l t size v s' Hws E).
  unfold size_rejected in *. simpl in Hrej. simpl.
  unfold fail in *. simpl. rewrite Hrej.
  unfold reprompt_size, put, cin_ignore, cin_clear. simpl.
  rewrite (reprompt_line (buf s') t out).
  - apply getValidSize_init.
  - exact (extract_int_one_line _ _ _ _ E Hl).
  - apply extract_int_length in E. simpl in E. lia.
Qed.

Lemma read_sign_line (x t : string) :
  read_sign (x ++ String "010" t) =
  (fst (read_sign x), (snd (read_sign x) ++ String "010" t)%string).
Proof. destruct x as [|c x]; [reflexivity | apply read_sign_app]. Qed.

Lemma read_mantissa_line (x t r : string) (m n nf : Z) :
  read_mantissa x = (m, n, nf, r) →
  read_mantissa (x ++ String "010" t) = (m, n, nf, (r ++ String "010" t)%string).
Proof.
  unfold read_mantissa. rewrite read_digits_line.
  destruct (read_digits x 0 0) as [[m0 ni] s0].
  change (fst (m0, ni, s0)) with (m0, ni). change (snd (m0, ni, s0)) with s0.
  cbv iota beta.
  destruct s0 as [|c s0]; [intros [= <- <- <- <-]; reflexivity|].
  change (String c s0 ++ String "010" t)%string with (String c (s0 ++ String "010" t)).
  destruct (Ascii.eqb_spec c ".") as [->|Hc].
  - rewrite read_digits_line. destruct (read_digits s0 m0 0) as [[m1 nf1] r1].
    now intros [= <- <- <- <-].
  - destruct c as [[] [] [] [] [] [] [] []]; try congruence; now intros [= <- <- <- <-].
Qed.

Lemma read_exponent_line (x t r : string) (e : Z) (valid : bool) :
  read_exponent x = (e, valid, r) →
  read_exponent (x ++ String "010" t) = (e, valid, (r ++ String "010" t)%string).
Proof.
  unfold read_exponent. destruct x as [|c x]; [intros [= <- <- <-]; reflexivity|].
  change (String c x ++ String "010" t)%string with (String c (x ++ String "010" t)).
  cbv iota beta.
  destruct (is_exp_char c); [|intros [= <- <- <-]; reflexivity].
  rewrite read_sign_line. destruct (read_sign x) as [eneg x1].
  change (fst (eneg, x1)) with eneg. change (snd (eneg, x1)) with x1. cbv iota beta.
  rewrite read_digits_line. destruct (read_digits x1 0 0) as [[e0 ne] x2].
  now intros [= <- <- <-].
Qed.

Lemma one_line_read_mantissa (s r : string) (m n nf : Z) :
  read_mantissa s = (m, n, nf, r) → one_line s = true → one_line r = true.
Proof.
  unfold read_mantissa.
  destruct (read_digits s 0 0) as [[m0 ni] s0] eqn:H0. intros H Hl.
  apply (one_line_read_digits _ _ _ _ _ _ H0) in Hl.
  destruct s0 as [|c r0]; [now injection H as _ _ _ <-|].
  destruct (Ascii.eqb_spec c ".") as [->|Hc].
  - destruct (read_digits r0 m0 0) as [[m1 nf1] r1] eqn:H1.
    injection H as _ _ _ <-. apply (one_line_read_digits _ _ _ _ _ _ H1).
    now apply andb_true_iff in Hl as [_ ?].
  - replace r with (String c r0); [exact Hl|].
    destruct c as [[] [] [] [] [] [] [] []]; congruence.
Qed.

Lemma one_line_read_exponent (s r : string) (e : Z) (valid : bool) :
  read_exponent s = (e, valid, r) → one_line s = true → one_line r = true.
Proof.
  unfold read_exponent. destruct s as [|c s]; [now intros [= _ _ <-]|].
  destruct (is_exp_char c); [|now intros [= _ _ <-]].
  destruct (read_sign s) as [eneg s1] eqn:E1.
  destruct (read_digits s1 0 0) as [[x ne] s2] eqn:E2.
  intros [= _ _ <-] [_ Hl]%andb_true_iff.
  apply (one_line_read_digits _ _ _ _ _ _ E2), (one_line_read_sign _ _ _ E1), Hl.
Qed.

Lemma extract_double_one_line (s s' : istream) (old v : double) :
  extract_double s old = (s', v) → one_line (buf s) = true → one_line (buf s') = true.
Proof.
  unfold extract_double. intros H Hl.
  destruct (negb (good s)); [now injection H as <- _|].
  apply one_line_skip_ws in Hl.
  destruct (skip_ws (buf s)) as [|c b] eqn:E; [now injection H as <- _|].
  destruct (read_sign (String c b)) as [neg b1] eqn:E1.
  apply (one_line_read_sign _ _ _ E1) in Hl.
  destruct (read_mantissa b1) as [[[m n] nf] b2] eqn:E2.
  apply (one_line_read_mantissa _ _ _ _ _ E2) in Hl.
  destruct (n =? 0); [now injection H as <- _|].
  destruct (read_exponent b2) as [[e valid] b3] eqn:E3.
  apply (one_line_read_exponent _ _ _ _ E3) in Hl.
  destruct (negb valid); [now injection H as <- _|].
  destruct (double_of_decimal neg m (e - nf)); now injection H as <- _.
Qed.

Lemma extract_double_line (l t : string) (old v : double) (s' : istream) :
  skip_ws l ≠ EmptyString →
  extract_double (Istream l false false) old = (s', v) →
  extract_double (Istream (l ++ String "010" t) false false) old =
  (Istream (buf s' ++ String "010" t) (failbit s') false, v).
Proof.
  intros Hl. unfold extract_double.
  change (negb (good (Istream l false false))) with false.
  change (negb (good (Istream (l ++ String "010" t) false false))) with false.
  cbv iota.
  change (buf (Istream l false false)) with l.
  change (buf (Istream (l ++ String "010" t) false false)) with (l ++ String "010" t)%string.
  rewrite (skip_ws_app l _ Hl).
  destruct (skip_ws l) as [|c b]; [congruence|].
  change (String c b ++ String "010" t)%string with (String c (b ++ String "010" t)).
  cbv iota. rewrite read_sign_app.
  destruct (read_sign (String c b)) as [neg b1].
  change (fst (neg, b1)) with neg. change (snd (neg, b1)) with b1. cbv iota beta.
  destruct (read_mantissa b1) as [[[m n] nf] b2] eqn:E2.
  rewrite (read_mantissa_line _ t _ _ _ _ E2). cbv iota beta.
  destruct (n =? 0); [rewrite is_empty_line; now intros [= <- <-]|].
  destruct (read_exponent b2) as [[e valid] b3] eqn:E3.
  rewrite (read_exponent_line _ t _ _ _ E3). cbv iota beta zeta.
  rewrite is_empty_line.
  destruct (negb valid); [now intros [= <- <-]|].
  destruct (double_of_decimal neg m (e - nf)); now intros [= <- <-].
Qed.

Lemma getValidNumber_drops_line (fuel : nat) (input : double) (l t out : string) :
  one_line l = true → Z.of_nat (String.length l) < 10000 →
  skip_ws l ≠ EmptyString →
  number_rejected (cin_double input (World (Istream l false false) out)) = true →
  getValidNumber (S fuel) input (World (Istream (l ++ String "010" t) false false) out) =
  getValidNumber fuel input (World (Istream t false false) (out ++ number_prompt)).
Proof.
  intros Hl Hn Hws Hrej. rewrite getValidNumber_unfold.
  unfold cin_double in *. simpl cin in *.
  destruct (extract_double (Istream l false false) input) as [s' v] eqn:E.
  rewrite (extract_double_line l t input v s' Hws E).
  unfold number_rejected in *. simpl in Hrej. simpl.
  unfold fail in *. simpl. rewrite Hrej.
  unfold reprompt_number, put, cin_ignore, cin_clear. simpl.
  rewrite (reprompt_line (buf s') t out).
  - apply getValidNumber_init.
  - exact (extract_double_one_line _ _ _ _ E Hl).
  - apply extract_double_length in E. simpl in E. lia.
Qed.

(** ** Blank input *)

Lemma skip_ws_blank_tail (c : ascii) (s : string) :
  skip_ws (String c s) = EmptyString → skip_ws s = EmptyString.
Proof. simpl. destruct (is_space c); [trivial | discriminate]. Qed.

Lemma ignore_chars_blank (s : string) :
  ∀ n d, skip_ws s = EmptyString → skip_ws (fst (ignore_chars s n d)) = EmptyString.
Proof.
  induction s as [|c s IH]; intros n d Hs; [reflexivity|].
  pose proof (skip_ws_blank_tail c s Hs) as Ht. simpl ignore_chars.
  destruct (n <=? 0); [exact Hs|].
  destruct (Ascii.eqb c d); [exact Ht | now apply IH].
Qed.

Lemma ignore_blank (s : istream) (n : Z) (d : ascii) :
  skip_ws (buf s) = EmptyString → skip_ws (buf (ignore s n d)) = EmptyString.
Proof.
  unfold ignore. intros Hs. destruct (negb (good s)); [exact Hs|].
  pose proof (ignore_chars_blank (buf s) n d Hs) as H.
  destruct (ignore_chars (buf s) n d). exact H.
Qed.

Lemma extract_int_blank (s s' : istream) (old v : Z) :
  skip_ws (buf s) = EmptyString → extract_int s old = (s', v) →
  skip_ws (buf s') = EmptyString ∧ failbit s' = true.
Proof.
  unfold extract_int. intros Hb. rewrite Hb.
  destruct (negb (good s)); intros [= <- _]; auto.
Qed.

Lemma extract_double_blank (s s' : istream) (old v : double) :
  skip_ws (buf s) = EmptyString → extract_double s old = (s', v) →
  skip_ws (buf s') = EmptyString ∧ failbit s' = true.
Proof.
  unfold extract_double. intros Hb. rewrite Hb.
  destruct (negb (good s)); intros [= <- _]; auto.
Qed.

Lemma getValidSize_blank (fuel : nat) :
  ∀ (size : Z) (w : world),
    skip_ws (buf (cin w)) = EmptyString → getValidSize fuel size w = OutOfFuel.
Proof.
  induction fuel as [|fuel IH]; intros size w Hb; [reflexivity|].
  rewrite getValidSize_unfold. unfold size_rejected, cin_int.
  destruct (extract_int (cin w) size) as [s v] eqn:E.
  destruct (extract_int_blank _ _ _ _ Hb E) as [Hb' Hf]. simpl.
  unfold fail. rewrite Hf. simpl. apply IH.
  unfold reprompt_size, put, cin_ignore, cin_clear. simpl.
  now apply ignore_blank.
Qed.

Lemma getValidNumber_blank (fuel : nat) :
  ∀ (input : double) (w : world),
    skip_ws (buf (cin w)) = EmptyString → getValidNumber fuel input w = OutOfFuel.
Proof.
  induction fuel as [|fuel IH]; intros input w Hb; [reflexivity|].
  rewrite getValidNumber_unfold. unfold number_rejected, cin_double.
  destruct (extract_double (cin w) input) as [s v] eqn:E.
  destruct (extract_double_blank _ _ _ _ Hb E) as [Hb' Hf]. simpl.
  unfold fail. rewrite Hf. apply IH.
  unfold reprompt_number, put, cin_ignore, cin_clear. simpl.
  now apply ignore_blank.
Qed.

Lemma main_blank (fuel : nat) (w : world) :
  skip_ws (buf (cin w)) = EmptyString → main fuel w = OutOfFuel.
Proof.
  intros Hb. unfold main, main_with.
  rewrite getValidSize_blank; [reflexivity | exact Hb].
Qed.

(** ** The values in the arrays *)

Lemma read_elements_finite (fuel : nat) (size : Z) (num num' : double)
    (arr arr' : list double) (w w' : world) :
  read_elements fuel size num arr w = Done (num', arr', w') →
  Forall (fun x => is_finite x = true) arr →
  Forall (fun x => is_finite x = true) arr'.
Proof.
  unfold read_elements, for_range. intros H Ha.
  apply (for_loop_Done_inv
           (fun _ '(_, a, _) => Forall (fun x => is_finite x = true) a)) in H.
  - exact H.
  - exact Ha.
  - intros k [[n a] u] [[n' a'] u'] _ Hfa.
    intros ([x u''] & Hx & [= <- <- <-])%bind_Done.
    unfold push_back. apply Forall_app. split; [exact Hfa|].
    apply Forall_cons. split; [|constructor].
    now apply getValidNumber_finite in Hx as [? _].
Qed.

Lemma read_array_finite (fuel : nat) (size sz : Z) (num num' : double)
    (arr' : list double) (w w' : world) :
  read_array fuel size num [] w = Done (sz, num', arr', w') →
  Forall (fun x => is_finite x = true) arr'.
Proof.
  unfold read_array. intros ([[n a] u] & H & [= _ _ <- _])%bind_Done.
  eapply read_elements_finite; [exact H | constructor].
Qed.

Lemma main_finite (fuel : nat) (w : world) (r : final) :
  main fuel w = Done r →
  Forall (fun x => is_finite x = true) (arr1 (inputs r)) ∧
  Forall (fun x => is_finite x = true) (arr2 (inputs r)) ∧
  Forall (fun x => is_finite x = true) (sorted r).
Proof.
  intros H. pose proof (main_vectors _ _ _ H) as (_ & _ & Hm & _ & _ & Hsort & _).
  apply main_Done in H
    as (s1 & w1 & n1 & a1 & w2 & s2 & w3 & n2 & a2 & w4 & w5 & out &
        H1 & H2 & H3 & H4 & H5 & H6 & ->).
  simpl in *. apply read_array_finite in H2, H4.
  split; [exact H2|]. split; [exact H4|].
  destruct (selection_sort_perm (a1 ++ a2)) as (out' & Hout' & Hp).
  rewrite H5 in Hout'. injection Hout' as <-.
  rewrite <- Hp. now apply Forall_app.
Qed.

Lemma clamp_min (size : Z) : clamp size = Z.min size 10.
Proof. unfold clamp. destruct (Z.gtb_spec size 10); lia. Qed.

(** X1. No run of the program reads or writes outside a vector, whatever
    the input, however long the run and whatever the variables that are not
    initialised hold: the copying loops, the sort and the printing loop only
    use indices below the size of the vector they index. *)
Theorem X1_main_never_leaves_a_vector (size1 size2 : Z) (num : double)
    (fuel : nat) (w : world) :
  main_with size1 size2 num fuel w ≠ Undefined.
Proof. rewrite main_with_init. apply main_defined. Qed.

(** X2. [getValidNumber] never fails; it returns exactly what the first read
    that did not set [failbit] stored, every earlier read having been
    followed by [reprompt_number] (flags cleared, rest of the line dropped,
    prompt written); the stream it returns is not in the failed state.
    Unlike [getValidSize] it puts no condition on the value. *)
Theorem X2_getValidNumber_returns_first_good_read (fuel : nat) (input : double)
    (w : world) :
  getValidNumber fuel input w ≠ Undefined ∧
  (∀ r : double * world,
     getValidNumber fuel input w = Done r ↔
     ∃ k, (k < fuel)%nat ∧
          (∀ j, (j < k)%nat → number_rejected (number_attempt j input w) = true) ∧
          number_attempt k input w = r ∧ number_rejected r = false) ∧
  (∀ (x : double) (w' : world),
     getValidNumber fuel input w = Done (x, w') → fail (cin w') = false).
Proof.
  split; [apply getValidNumber_defined|]. split.
  - intros r. exact (getValidNumber_attempts fuel input w r).
  - intros x w' H. now apply getValidNumber_finite in H as [_ ?].
Qed.

Lemma X2_witness :
  ∃ w', getValidNumber 3 d1 (start ("x" ++ nl ++ "1e999" ++ nl ++ "-2.5e1" ++ nl)) =
          Done (of_Z (-25), w') ∧
        fail (cin w') = false.
Proof.
  eexists. split; [vm_compute; reflexivity|].
  apply (proj2 (proj2 (X2_getValidNumber_returns_first_good_read 3 d1
           (start ("x" ++ nl ++ "1e999" ++ nl ++ "-2.5e1" ++ nl)))) (of_Z (-25))).
  vm_compute. reflexivity.
Defined.

(** X3. Every value that [getValidNumber] returns is finite: a field that
    is not a number, and a number too large for a [double], are rejected.  So
    the arrays and the sorted vector of a run of [main] hold neither a NaN
    nor an infinity. *)
Theorem X3_entered_values_are_finite :
  (∀ (fuel : nat) (input x : double) (w w' : world),
     getValidNumber fuel input w = Done (x, w') → is_finite x = true) ∧
  (∀ (fuel : nat) (w : world) (r : final),
     main fuel w = Done r →
     Forall (fun x => is_finite x = true) (arr1 (inputs r)) ∧
     Forall (fun x => is_finite x = true) (arr2 (inputs r)) ∧
     Forall (fun x => is_finite x = true) (sorted r)).
Proof.
  split.
  - intros fuel input x w w' H. now apply getValidNumber_finite in H as [? _].
  - exact main_finite.
Qed.

Lemma X3_witness :
  (∃ x w', getValidNumber 2 d1 (start ("1e999 nan" ++ nl ++ "1e308")) = Done (x, w') ∧
           is_finite x = true) ∧
  (∃ r, main 1 (start example_input) = Done r ∧
        Forall (fun x => is_finite x = true) (sorted r)).
Proof.
  split.
  - eexists. eexists. split; [vm_compute; reflexivity|].
    eapply (proj1 X3_entered_values_are_finite 2%nat d1 _
              (start ("1e999 nan" ++ nl ++ "1e308"))).
    vm_compute. reflexivity.
  - eexists. split; [vm_compute; reflexivity|].
    apply (proj2 X3_entered_values_are_finite 1%nat (start example_input)).
    vm_compute. reflexivity.
Defined.

(** X4. [getValidSize] and [getValidNumber] write one copy of their prompt
    for every rejected attempt and nothing else: when they return after [k]
    rejected attempts, the output is the output before followed by [k]
    prompts. *)
Theorem X4_one_prompt_per_rejected_attempt :
  (∀ (fuel : nat) (size v : Z) (w w' : world),
     getValidSize fuel size w = Done (v, w') →
     ∃ k, (k < fuel)%nat ∧ size_attempt k size w = (v, w') ∧
          cout w' = (cout w ++ copies k size_prompt)%string) ∧
  (∀ (fuel : nat) (input x : double) (w w' : world),
     getValidNumber fuel input w = Done (x, w') →
     ∃ k, (k < fuel)%nat ∧ number_attempt k input w = (x, w') ∧
          cout w' = (cout w ++ copies k number_prompt)%string).
Proof. split; [exact getValidSize_cout | exact getValidNumber_cout]. Qed.

Lemma X4_witness :
  ∃ w' k, getValidSize 3 0 (start retry_input) = Done (7, w') ∧
          size_attempt k 0 (start retry_input) = (7, w') ∧
          cout w' = (cout (start retry_input) ++ copies k size_prompt)%string.
Proof.
  assert (∃ w', getValidSize 3 0 (start retry_input) = Done (7, w')) as [w' H]
    by (eexists; vm_compute; reflexivity).
  destruct (proj1 X4_one_prompt_per_rejected_attempt _ _ _ _ _ H) as (k & _ & Hk & Hc).
  exists w', k. split; [exact H|]. split; [exact Hk | exact Hc].
Defined.



(** X6. For an accepted size the reading loop stores exactly min(size, 10)
    values: a size from 1 to 10 is honoured as it is, a larger one is cut to
    10.  So [main] sorts as many values as both arrays hold, between 2 and
    20. *)
Theorem X6_reads_min_of_size_and_10 :
  (∀ (fuel : nat) (size sz : Z) (num num' : double) (arr' : list double)
     (w w' : world),
     0 < size →
     read_array fuel size num [] w = Done (sz, num', arr', w') →
     sz = Z.min size 10 ∧ Z.of_nat (length arr') = Z.min size 10) ∧
  (∀ (fuel : nat) (w : world) (r : final),
     main fuel w = Done r →
     length (sorted r) = (length (arr1 (inputs r)) + length (arr2 (inputs r)))%nat ∧
     (2 <= length (sorted r) <= 20)%nat).
Proof.
  split.
  - intros fuel size sz num num' arr' w w' Hpos H.
    apply (read_array_accepted _ _ _ _ _ _ _ _ Hpos) in H as (-> & <- & _).
    split; apply clamp_min.
  - intros fuel w r (L1 & L2 & Hm & _ & _ & Hsort & _)%main_vectors.
    destruct (selection_sort_perm (mergedArray (inputs r))) as (out & Hout & Hp).
    rewrite Hsort in Hout. injection Hout as <-.
    rewrite <- (Permutation_length Hp), Hm, length_app. lia.
Qed.

Lemma X6_witness :
  (0 < 3 ∧
   ∃ sz num' arr' w',
     read_array 1 3 d1 [] (start "4 5 6 7") = Done (sz, num', arr', w') ∧
     sz = Z.min 3 10 ∧ Z.of_nat (length arr') = Z.min 3 10) ∧
  (∃ r, main 1 (start example_input) = Done r ∧
        length (sorted r) = (length (arr1 (inputs r)) + length (arr2 (inputs r)))%nat ∧
        (2 <= length (sorted r) <= 20)%nat).
Proof.
  split.
  - split; [lia|].
    assert (∃ sz num' arr' w',
              read_array 1 3 d1 [] (start "4 5 6 7") = Done (sz, num', arr', w'))
      as (sz & num' & arr' & w' & H)
      by (do 4 eexists; vm_compute; reflexivity).
    exists sz, num', arr', w'. split; [exact H|].
    apply (proj1 X6_reads_min_of_size_and_10 1%nat 3 sz d1 num' arr'
             (start "4 5 6 7") w'); [lia | exact H].
  - eexists. split; [vm_compute; reflexivity|].
    apply (proj2 X6_reads_min_of_size_and_10 1%nat (start example_input)).
    vm_compute. reflexivity.
Defined.

(** X7. The sorted output depends on the values entered, not on the order
    in which they were entered nor on how they were split over the two
    arrays: two vectors without NaN that hold the same values are sorted into
    vectors that are equal position by position ([==] of C++, which tells
    doubles apart except for the sign of a zero). *)
Theorem X7_output_independent_of_entry_order (a b : list double) :
  nan_free a → int_sized a → a ≡ₚ b →
  ∃ oa ob, selection_sort a = Done oa ∧ selection_sort b = Done ob ∧
           Forall2 (fun x y => eq x y = true) oa ob.
Proof. apply selection_sort_order_free. Qed.

Lemma X7_witness :
  nan_free (example_A ++ example_B) ∧ int_sized (example_A ++ example_B) ∧
  example_A ++ example_B ≡ₚ example_B ++ example_A ∧
  ∃ oa ob, selection_sort (example_A ++ example_B) = Done oa ∧
           selection_sort (example_B ++ example_A) = Done ob ∧
           Forall2 (fun x y => eq x y = true) oa ob.
Proof.
  assert (nan_free (example_A ++ example_B)) as Hnan by (repeat constructor).
  assert (int_sized (example_A ++ example_B)) as Hsz by (vm_compute; discriminate).
  assert (example_A ++ example_B ≡ₚ example_B ++ example_A) as Hp
    by apply Permutation_app_comm.
  split; [exact Hnan|]. split; [exact Hsz|]. split; [exact Hp|].
  exact (X7_output_independent_of_entry_order _ _ Hnan Hsz Hp).
Defined.

(** X8. After the sort of a vector without NaN every element is >= every
    later one; the first element is >= every value of the input and the last
    one is <= every value of the input. *)
Theorem X8_largest_first_smallest_last (v out : list double) :
  nan_free v → int_sized v → selection_sort v = Done out →
  (∀ (a b : nat) (x y : double),
     (a < b)%nat → out !! a = Some x → out !! b = Some y → ge x y = true) ∧
  (∀ m x : double, head out = Some m → x ∈ v → ge m x = true) ∧
  (∀ m x : double, last out = Some m → x ∈ v → ge x m = true).
Proof. apply selection_sort_extremes. Qed.

Lemma X8_witness :
  nan_free example_merged ∧ int_sized example_merged ∧
  selection_sort example_merged = Done example_sorted ∧
  (∀ m x : double, head example_sorted = Some m → x ∈ example_merged → ge m x = true) ∧
  (∀ m x : double, last example_sorted = Some m → x ∈ example_merged → ge x m = true).
Proof.
  assert (nan_free example_merged) as Hnan by (repeat constructor).
  assert (int_sized example_merged) as Hsz by (vm_compute; discriminate).
  assert (selection_sort example_merged = Done example_sorted) as Hs
    by (vm_compute; reflexivity).
  split; [exact Hnan|]. split; [exact Hsz|]. split; [exact Hs|].
  exact (proj2 (X8_largest_first_smallest_last _ _ Hnan Hsz Hs)).
Defined.

(** X9. Which numerals [getValidSize] takes for a size.  When the first
    field of the input starts with a digit, the first attempt is accepted
    exactly when the value [n] of its digits is between 1 and [INT_MAX]; in
    that case [getValidSize] returns [n] at once, writes nothing and leaves
    what follows the digits unread.  A field that starts with a minus sign and
    a digit is always rejected. *)
Theorem X9_size_numeral_accepted_iff_in_range (input : string) (c : ascii)
    (s rest : string) (n len size : Z) (out : string) :
  is_digit c = true →
  read_digits (String c s) 0 0 = (n, len, rest) →
  (skip_ws input = String c s →
   (size_rejected (cin_int size (World (Istream input false false) out)) = false ↔
    0 < n <= INT_MAX) ∧
   (0 < n <= INT_MAX →
    ∀ fuel, getValidSize (S fuel) size (World (Istream input false false) out) =
            Done (n, World (Istream rest false (is_empty rest)) out))) ∧
  (skip_ws input = String "-" (String c s) →
   size_rejected (cin_int size (World (Istream input false false) out)) = true).
Proof.
  intros Hc Hr. split.
  - intros Hws. now apply (size_numeral_accepted input c s rest n len).
  - intros Hws. now apply (size_numeral_negative input c s rest n len).
Qed.

Lemma X9_witness :
  (getValidSize 1 0 (start (" 42 1 2")) =
     Done (42, World (Istream " 1 2" false false) EmptyString)) ∧
  (size_rejected (cin_int 0 (start "2147483648")) = false ↔ 0 < 2147483648 <= INT_MAX) ∧
  size_rejected (cin_int 0 (start "-3")) = true.
Proof.
  split; [|split].
  - apply (proj2 (proj1 (X9_size_numeral_accepted_iff_in_range " 42 1 2" "4" "2 1 2"
             " 1 2" 42 2 0 EmptyString eq_refl eq_refl) eq_refl)).
    unfold INT_MAX. lia.
  - exact (proj1 (proj1 (X9_size_numeral_accepted_iff_in_range "2147483648" "2"
             "147483648" EmptyString 2147483648 10 0 EmptyString eq_refl eq_refl)
             eq_refl)).
  - exact (proj2 (X9_size_numeral_accepted_iff_in_range "-3" "3" EmptyString
             EmptyString 3 1 0 EmptyString eq_refl eq_refl) eq_refl).
Defined.

(** X10. A line that [getValidSize] rejects is dropped whole.  When the
    input starts with a line (shorter than 10000 characters, not blank) on
    which the read fails or gives a value <= 0, one round of the loop writes
    the prompt and goes on with the input that follows this line's break:
    whatever else the line holds, a valid size included, is never read. *)
Theorem X10_getValidSize_drops_rejected_line (fuel : nat) (size : Z)
    (l t out : string) :
  one_line l = true → Z.of_nat (String.length l) < 10000 →
  skip_ws l ≠ EmptyString →
  size_rejected (cin_int size (World (Istream l false false) out)) = true →
  getValidSize (S fuel) size (World (Istream (l ++ String "010" t) false false) out) =
  getValidSize fuel size (World (Istream t false false) (out ++ size_prompt)).
Proof. apply getValidSize_drops_line. Qed.

Lemma X10_witness :
  one_line "0 5 6" = true ∧ Z.of_nat (String.length "0 5 6") < 10000 ∧
  skip_ws "0 5 6" ≠ EmptyString ∧
  size_rejected (cin_int 0 (World (Istream "0 5 6" false false) EmptyString)) = true ∧
  getValidSize 2 0 (World (Istream ("0 5 6" ++ String "010" "7") false false) EmptyString) =
  Done (7, World (Istream EmptyString false true) size_prompt).
Proof.
  assert (skip_ws "0 5 6" ≠ EmptyString) as Hws by discriminate.
  split; [reflexivity|]. split; [simpl; lia|]. split; [exact Hws|].
  split; [reflexivity|].
  rewrite (X10_getValidSize_drops_rejected_line 1 0 "0 5 6" "7" EmptyString
             eq_refl ltac:(simpl; lia) Hws eq_refl).
  vm_compute. reflexivity.
Defined.

(** X11. A line on which [getValidNumber] fails is dropped whole in the
    same way: the numbers that follow the bad field on that line are lost,
    and reading goes on with the next line. *)
Theorem X11_getValidNumber_drops_rejected_line (fuel : nat) (input : double)
    (l t out : string) :
  one_line l = true → Z.of_nat (String.length l) < 10000 →
  skip_ws l ≠ EmptyString →
  number_rejected (cin_double input (World (Istream l false false) out)) = true →
  getValidNumber (S fuel) input (World (Istream (l ++ String "010" t) false false) out) =
  getValidNumber fuel input (World (Istream t false false) (out ++ number_prompt)).
Proof. apply getValidNumber_drops_line. Qed.

Lemma X11_witness :
  one_line "x 1 2" = true ∧ Z.of_nat (String.length "x 1 2") < 10000 ∧
  skip_ws "x 1 2" ≠ EmptyString ∧
  number_rejected (cin_double d1 (World (Istream "x 1 2" false false) EmptyString)) = true ∧
  getValidNumber 2 d1 (World (Istream ("x 1 2" ++ String "010" "3 4") false false) EmptyString) =
  Done (d3, World (Istream " 4" false false) number_prompt).
Proof.
  assert (skip_ws "x 1 2" ≠ EmptyString) as Hws by discriminate.
  split; [reflexivity|]. split; [simpl; lia|]. split; [exact Hws|].
  split; [reflexivity|].
  rewrite (X11_getValidNumber_drops_rejected_line 1 d1 "x 1 2" "3 4" EmptyString
             eq_refl ltac:(simpl; lia) Hws eq_refl).
  vm_compute. reflexivity.
Defined.

(** X12. On an input that holds nothing but white space (the empty input
    included) neither [getValidSize] nor [getValidNumber] ever returns, and
    neither does [main]: at the end of the input every read fails, and the
    loops have no other way out than a successful read. *)
Theorem X12_blank_input_never_returns (w : world) :
  skip_ws (buf (cin w)) = EmptyString →
  (∀ (fuel : nat) (size : Z), getValidSize fuel size w = OutOfFuel) ∧
  (∀ (fuel : nat) (input : double), getValidNumber fuel input w = OutOfFuel) ∧
  (∀ (fuel : nat), main fuel w = OutOfFuel).
Proof.
  intros Hb. split; [|split].
  - intros fuel size. now apply getValidSize_blank.
  - intros fuel input. now apply getValidNumber_blank.
  - intros fuel. now apply main_blank.
Qed.

Lemma X12_witness :
  skip_ws (buf (cin (start (" " ++ nl ++ nl ++ "  ")))) = EmptyString ∧
  (∀ (fuel : nat), main fuel (start (" " ++ nl ++ nl ++ "  ")) = OutOfFuel).
Proof.
  split; [reflexivity|].
  exact (proj2 (proj2 (X12_blank_input_never_returns
                         (start (" " ++ nl ++ nl ++ "  ")) eq_refl))).
Defined.

(** X13. The reference parameter of [getValidSize] and of [getValidNumber]
    is an output only: the value the variable holds at the call has no
    effect on what is returned, although a failed read leaves it in the
    variable. *)
Theorem X13_reference_parameter_is_output_only (fuel : nat) (w : world) :
  (∀ size size' : Z, getValidSize fuel size w = getValidSize fuel size' w) ∧
  (∀ input input' : double, getValidNumber fuel input w = getValidNumber fuel input' w).
Proof.
  split.
  - intros size size'. apply getValidSize_init.
  - intros input input'. apply getValidNumber_init.
Qed.

(** ** The copying loop at its bounds *)

Lemma for_loop_app {St : Type} (body : Z → St → outcome St) (a b : nat) :
  ∀ (i : Z) (s : St),
    for_loop body (a + b) i s =
    for_loop body a i s ≫= for_loop body b (i + Z.of_nat a).
Proof.
  induction a as [|a IH]; intros i s.
  - change (Z.of_nat 0) with 0. rewrite Z.add_0_r. reflexivity.
  - change (for_loop body (S a + b) i s)
      with (body i s ≫= for_loop body (a + b) (i + 1)).
    change (for_loop body (S a) i s) with (body i s ≫= for_loop body a (i + 1)).
    destruct (body i s) as [t| |]; [|reflexivity|reflexivity].
    change (for_loop body (a + b) (i + 1) t =
            for_loop body a (i + 1) t ≫= for_loop body b (i + Z.of_nat (S a))).
    rewrite IH. now replace (i + 1 + Z.of_nat a) with (i + Z.of_nat (S a)) by lia.
Qed.

Lemma append_loop_beyond (arr : list double) (size : Z) (m : list double) :
  Z.of_nat (length arr) < size → append_loop arr size m = Undefined.
Proof.
  intros Hsz. pose proof (append_loop_all arr m) as Hall.
  unfold append_loop, for_range in *.
  replace (Z.to_nat (size - 0))
    with (Z.to_nat (Z.of_nat (length arr) - 0) + S (Z.to_nat (size - Z.of_nat (length arr) - 1)))%nat
    by lia.
  rewrite for_loop_app, Hall. simpl.
  unfold vec_get. destruct (0 <=? _); [|reflexivity].
  rewrite lookup_ge_None_2; [reflexivity | lia].
Qed.

(** X14. The copying loop of the concatenation at its bounds: with a size
    up to the vector's it appends the first [size] elements (none for a size
    <= 0, all of them for the size of the vector, as in [main]); with a
    larger size it reads [arr[i]] outside the vector. *)
Theorem X14_copy_loop_bounds (arr : list double) (size : Z) (m : list double) :
  (size <= Z.of_nat (length arr) →
   append_loop arr size m = Done (m ++ take (Z.to_nat size) arr)) ∧
  (Z.of_nat (length arr) < size → append_loop arr size m = Undefined).
Proof.
  split; [|apply append_loop_beyond].
  intros Hsz. destruct (Z.le_gt_cases 0 size) as [H0|H0].
  - now apply append_loop_take.
  - unfold append_loop. rewrite for_range_empty by lia.
    replace (Z.to_nat size) with O by lia. now rewrite take_0, app_nil_r.
Qed.

Lemma X14_witness :
  (2 <= Z.of_nat (length example_A) ∧
   append_loop example_A 2 [d7] = Done [d7; d1; d5]) ∧
  (Z.of_nat (length example_A) < 4 ∧ append_loop example_A 4 [d7] = Undefined).
Proof.
  split.
  - split; [simpl; lia|].
    rewrite (proj1 (X14_copy_loop_bounds example_A 2 [d7])); [reflexivity|simpl; lia].
  - split; [simpl; lia|].
    apply (proj2 (X14_copy_loop_bounds example_A 4 [d7])). simpl. lia.
Defined.

(** * Sizes above 10 *)

(** ** A size above 10 anywhere a size is asked for *)

(** The numeral 10 followed by what followed the digits of [n]. *)
Lemma read_digits_ten (s rest : string) (acc count n len : Z) :
  read_digits s acc count = (n, len, rest) →
  read_digits (String "1" (String "0" rest)) 0 0 = (10, 2, rest).
Proof.
  intros H. simpl. exact (read_digits_rest _ _ _ _ _ _ H 10 2).
Qed.

(** Reading a size and then the array (lines 43-49 and 53-59) on an input
    whose first field is the digits of an [int] above 10, and on an input
    whose first field is 10 with the same text after it. *)
Lemma read_phase_large_size (fuel : nat) (input input' : string) (c : ascii)
    (s rest : string) (n len size : Z) (num : double) (arr : list double)
    (out : string) :
  skip_ws input = String c s →
  is_digit c = true →
  read_digits (String c s) 0 0 = (n, len, rest) →
  10 < n <= INT_MAX →
  skip_ws input' = String "1" (String "0" rest) →
  getValidSize fuel size (World (Istream input false false) out)
    ≫= (fun '(size, w) => read_array fuel size num arr w) =
  getValidSize fuel size (World (Istream input' false false) out)
    ≫= (fun '(size, w) => read_array fuel size num arr w).
Proof.
  intros Hws Hc Hr Hn Hws'. destruct fuel as [|fuel]; [reflexivity|].
  destruct (size_numeral_accepted input c s rest n len size out Hws Hc Hr) as [_ H].
  rewrite (H ltac:(lia) fuel).
  destruct (size_numeral_accepted input' "1" (String "0" rest) rest 10 2 size out
              Hws' eq_refl (read_digits_ten _ _ _ _ _ _ Hr)) as [_ H'].
  rewrite (H' ltac:(unfold INT_MAX; lia) fuel).
  simpl. unfold read_array. now rewrite (clamp_large n) by lia.
Qed.

(** The same for whole runs, the size being the first one asked for. *)
Lemma main_large_first_size (fuel : nat) (input input' : string) (c : ascii)
    (s rest : string) (n len : Z) (out : string) :
  skip_ws input = String c s →
  is_digit c = true →
  read_digits (String c s) 0 0 = (n, len, rest) →
  10 < n <= INT_MAX →
  skip_ws input' = String "1" (String "0" rest) →
  main fuel (World (Istream input false false) out) =
  main fuel (World (Istream input' false false) out).
Proof.
  intros Hws Hc Hr Hn Hws'. unfold main, main_with.
  set (o := cout (put "How many would you want to place in the first array? (max 10): "
                     (line (World (Istream input false false) out)))).
  change (put _ (line (World (Istream input false false) out)))
    with (World (Istream input false false) o).
  change (put _ (line (World (Istream input' false false) out)))
    with (World (Istream input' false false) o).
  pose proof (read_phase_large_size fuel input input' c s rest n len 0
                (S754_zero false) [] o Hws Hc Hr Hn Hws') as H.
  destruct (getValidSize fuel 0 (World (Istream input false false) o)) as [[s1 w1]| |];
    destruct (getValidSize fuel 0 (World (Istream input' false false) o)) as [[s1' w1']| |];
    cbv beta iota delta [mbind outcome_bind arr1] in H |- *;
    try reflexivity; try discriminate;
    first [rewrite H | rewrite <- H]; reflexivity.
Qed.

(** The same for whole runs, the size being the second one asked for: the
    two runs have read the same first array and stand before inputs that
    differ in the numeral only. *)
Lemma main_large_second_size (fuel : nat) (w w' : world) (size1 : Z) (num : double)
    (a1 : list double) (input input' : string) (c : ascii) (s rest : string)
    (n len : Z) (out : string) :
  getValidSize fuel 0
      (put "How many would you want to place in the first array? (max 10): " (line w))
    ≫= (fun '(size, w) => read_array fuel size (S754_zero false) [] w) =
    Done (size1, num, a1, World (Istream input false false) out) →
  getValidSize fuel 0
      (put "How many would you want to place in the first array? (max 10): " (line w'))
    ≫= (fun '(size, w) => read_array fuel size (S754_zero false) [] w) =
    Done (size1, num, a1, World (Istream input' false false) out) →
  skip_ws input = String c s →
  is_digit c = true →
  read_digits (String c s) 0 0 = (n, len, rest) →
  10 < n <= INT_MAX →
  skip_ws input' = String "1" (String "0" rest) →
  main fuel w = main fuel w'.
Proof.
  intros H1 H1' Hws Hc Hr Hn Hws'. unfold main, main_with.
  destruct (getValidSize fuel 0 (put _ (line w))) as [[s1 w1]| |];
    try discriminate H1.
  destruct (getValidSize fuel 0 (put _ (line w'))) as [[s1' w1']| |];
    try discriminate H1'.
  cbv beta iota delta [mbind outcome_bind arr1 arr2 mergedArray] in H1, H1' |- *.
  rewrite H1, H1'.
  set (o := cout (put "How many would you want to place in the second array? (max 10): "
                     (line (World (Istream input false false) out)))).
  change (put _ (line (World (Istream input false false) out)))
    with (World (Istream input false false) o).
  change (put _ (line (World (Istream input' false false) out)))
    with (World (Istream input' false false) o).
  pose proof (read_phase_large_size fuel input input' c s rest n len 0
                num [] o Hws Hc Hr Hn Hws') as H.
  destruct (getValidSize fuel 0 (World (Istream input false false) o)) as [[s2 w2]| |];
    destruct (getValidSize fuel 0 (World (Istream input' false false) o)) as [[s2' w2']| |];
    cbv beta iota delta [mbind outcome_bind] in H |- *;
    try reflexivity; try discriminate;
    first [rewrite H | rewrite <- H]; reflexivity.
Qed.

(** ** The property of the specification *)

(** C5, as the specification words it, does not hold for every size above
    10.  A request for 2147483648 elements, one more than [INT_MAX], is not
    cut to 10: [operator>>] cannot store it in the [int], [cin.fail()] is
    true, the request is rejected and the size is asked for again (lines
    12-16).  On what follows the run with 2147483648 takes the next number,
    1, as the size and returns with one element in the first array, where
    the run with 10 in its place returns with ten. *)
Lemma C5_counterexample :
  10 < 2147483648 ∧
  size_rejected (cin_int 0 (start ("2147483648" ++ nl))) = true ∧
  ∃ r r',
    main 2 (start ("2147483648" ++ nl ++ "1 2 3 4 5 6 7 8 9 10" ++ nl ++
                   "1" ++ nl ++ "7" ++ nl)) = Done r ∧
    main 2 (start ("10" ++ nl ++ "1 2 3 4 5 6 7 8 9 10" ++ nl ++
                   "1" ++ nl ++ "7" ++ nl)) = Done r' ∧
    length (arr1 (inputs r)) = 1%nat ∧
    length (arr1 (inputs r')) = 10%nat ∧
    map show_double (sorted r) = ["6"; "5"; "4"; "2"]%string ∧
    map show_double (sorted r') =
      ["10"; "9"; "8"; "7"; "7"; "6"; "5"; "4"; "3"; "2"; "1"]%string ∧
    r ≠ r'.
Proof.
  split; [lia|]. split; [vm_compute; reflexivity|].
  eexists. eexists. split; [vm_compute; reflexivity|].
  split; [vm_compute; reflexivity|].
  split; [vm_compute; reflexivity|]. split; [vm_compute; reflexivity|].
  split; [vm_compute; reflexivity|]. split; [vm_compute; reflexivity|].
  vm_compute. discriminate.
Qed.

(** C5, amended: a size above 10 that an [int] can hold, 10 < n <= INT_MAX,
    behaves as a size of exactly 10.  What [main] does with an accepted size
    (the clamp, the prompt, the reading loop) is the same for every size
    above 10 as for 10.  Wherever a size is asked for (lines 43-49 and
    53-59), an input whose next field is the digits of such an [n] and an
    input whose next field is 10, with the same text after it, give the same
    size, array, input left and output.  So do the whole runs, whether the
    size is the first or the second one asked for.  And when [main] returns
    both arrays have between 1 and 10 elements. *)
Theorem C5_size_above_10_is_10 :
  (∀ (fuel : nat) (size : Z) (num : double) (arr : list double) (w : world),
     10 < size →
     read_array fuel size num arr w = read_array fuel 10 num arr w) ∧
  (∀ (fuel : nat) (input input' : string) (c : ascii) (s rest : string)
     (n len size : Z) (num : double) (arr : list double) (out : string),
     skip_ws input = String c s →
     is_digit c = true →
     read_digits (String c s) 0 0 = (n, len, rest) →
     10 < n <= INT_MAX →
     skip_ws input' = String "1" (String "0" rest) →
     getValidSize fuel size (World (Istream input false false) out)
       ≫= (fun '(size, w) => read_array fuel size num arr w) =
     getValidSize fuel size (World (Istream input' false false) out)
       ≫= (fun '(size, w) => read_array fuel size num arr w)) ∧
  (∀ (fuel : nat) (input input' : string) (c : ascii) (s rest : string)
     (n len : Z) (out : string),
     skip_ws input = String c s →
     is_digit c = true →
     read_digits (String c s) 0 0 = (n, len, rest) →
     10 < n <= INT_MAX →
     skip_ws input' = String "1" (String "0" rest) →
     main fuel (World (Istream input false false) out) =
     main fuel (World (Istream input' false false) out)) ∧
  (∀ (fuel : nat) (w w' : world) (size1 : Z) (num : double) (a1 : list double)
     (input input' : string) (c : ascii) (s rest : string) (n len : Z)
     (out : string),
     getValidSize fuel 0
         (put "How many would you want to place in the first array? (max 10): "
            (line w))
       ≫= (fun '(size, w) => read_array fuel size (S754_zero false) [] w) =
       Done (size1, num, a1, World (Istream input false false) out) →
     getValidSize fuel 0
         (put "How many would you want to place in the first array? (max 10): "
            (line w'))
       ≫= (fun '(size, w) => read_array fuel size (S754_zero false) [] w) =
       Done (size1, num, a1, World (Istream input' false false) out) →
     skip_ws input = String c s →
     is_digit c = true →
     read_digits (String c s) 0 0 = (n, len, rest) →
     10 < n <= INT_MAX →
     skip_ws input' = String "1" (String "0" rest) →
     main fuel w = main fuel w') ∧
  (∀ (fuel : nat) (w : world) (r : final),
     main fuel w = Done r →
     (1 <= length (arr1 (inputs r)) <= 10)%nat ∧
     (1 <= length (arr2 (inputs r)) <= 10)%nat).
Proof.
  split; [|split; [|split; [|split]]].
  - intros fuel size num arr w Hsz. unfold read_array.
    now rewrite (clamp_large size Hsz).
  - exact read_phase_large_size.
  - exact main_large_first_size.
  - exact main_large_second_size.
  - intros fuel w r (H1 & H2 & _)%main_vectors. split; assumption.
Qed.

Lemma C5_witness :
  (10 < 15 ∧
   read_array 1 15 d1 [] (start "1 2 3 4 5 6 7 8 9 10 11") =
   read_array 1 10 d1 [] (start "1 2 3 4 5 6 7 8 9 10 11") ∧
   ∃ num arr w, read_array 1 15 d1 [] (start "1 2 3 4 5 6 7 8 9 10 11") =
                  Done (10, num, arr, w) ∧
                length arr = 10%nat ∧ buf (cin w) = " 11"%string) ∧
  (getValidSize 1 0 (start (nl ++ " 11 1 2 3 4 5 6 7 8 9 10 11"))
     ≫= (fun '(size, w) => read_array 1 size d1 [] w) =
   getValidSize 1 0 (start "10 1 2 3 4 5 6 7 8 9 10 11")
     ≫= (fun '(size, w) => read_array 1 size d1 [] w) ∧
   ∃ num arr w,
     getValidSize 1 0 (start (nl ++ " 11 1 2 3 4 5 6 7 8 9 10 11"))
       ≫= (fun '(size, w) => read_array 1 size d1 [] w) = Done (10, num, arr, w) ∧
     length arr = 10%nat ∧ buf (cin w) = " 11"%string) ∧
  (main 1 (start "2147483647 0 1 2 3 4 5 6 7 8 9 1 7") =
   main 1 (start "10 0 1 2 3 4 5 6 7 8 9 1 7") ∧
   ∃ r, main 1 (start "2147483647 0 1 2 3 4 5 6 7 8 9 1 7") = Done r ∧
        length (arr1 (inputs r)) = 10%nat) ∧
  (main 1 (start "1 5 2147483647 0 1 2 3 4 5 6 7 8 9") =
   main 1 (start "1 5 10 0 1 2 3 4 5 6 7 8 9") ∧
   ∃ r, main 1 (start "1 5 2147483647 0 1 2 3 4 5 6 7 8 9") = Done r ∧
        length (arr2 (inputs r)) = 10%nat) ∧
  (∃ r, main 1 (start example_input) = Done r ∧
        (1 <= length (arr1 (inputs r)) <= 10)%nat ∧
        (1 <= length (arr2 (inputs r)) <= 10)%nat).
Proof.
  split; [|split; [|split; [|split]]].
  - split; [lia|]. split.
    + apply (proj1 C5_size_above_10_is_10 1%nat 15 d1 []
               (start "1 2 3 4 5 6 7 8 9 10 11")). lia.
    + eexists. eexists. eexists. split; [vm_compute; reflexivity|].
      split; vm_compute; reflexivity.
  - split.
    + apply (proj1 (proj2 C5_size_above_10_is_10) 1%nat
               (nl ++ " 11 1 2 3 4 5 6 7 8 9 10 11")%string
               "10 1 2 3 4 5 6 7 8 9 10 11"%string "1"%char
               "1 1 2 3 4 5 6 7 8 9 10 11"%string
               " 1 2 3 4 5 6 7 8 9 10 11"%string 11 2 0 d1 [] EmptyString).
      * vm_compute. reflexivity.
      * reflexivity.
      * vm_compute. reflexivity.
      * unfold INT_MAX. lia.
      * vm_compute. reflexivity.
    + eexists. eexists. eexists. split; [vm_compute; reflexivity|].
      split; vm_compute; reflexivity.
  - split.
    + apply (proj1 (proj2 (proj2 C5_size_above_10_is_10)) 1%nat
               "2147483647 0 1 2 3 4 5 6 7 8 9 1 7"%string
               "10 0 1 2 3 4 5 6 7 8 9 1 7"%string "2"%char
               "147483647 0 1 2 3 4 5 6 7 8 9 1 7"%string
               " 0 1 2 3 4 5 6 7 8 9 1 7"%string 2147483647 10 EmptyString).
      * vm_compute. reflexivity.
      * reflexivity.
      * vm_compute. reflexivity.
      * unfold INT_MAX. lia.
      * vm_compute. reflexivity.
    + eexists. split; vm_compute; reflexivity.
  - split.
    + apply (proj1 (proj2 (proj2 (proj2 C5_size_above_10_is_10))) 1%nat
               (start "1 5 2147483647 0 1 2 3 4 5 6 7 8 9")
               (start "1 5 10 0 1 2 3 4 5 6 7 8 9") 1 d5 [d5]
               " 2147483647 0 1 2 3 4 5 6 7 8 9"%string
               " 10 0 1 2 3 4 5 6 7 8 9"%string "2"%char
               "147483647 0 1 2 3 4 5 6 7 8 9"%string
               " 0 1 2 3 4 5 6 7 8 9"%string 2147483647 10
               (stars ++ nl ++
                "How many would you want to place in the first array? (max 10): " ++
                "Enter 1 elements: ")%string).
      * vm_compute. reflexivity.
      * vm_compute. reflexivity.
      * vm_compute. reflexivity.
      * reflexivity.
      * vm_compute. reflexivity.
      * unfold INT_MAX. lia.
      * vm_compute. reflexivity.
    + eexists. split; vm_compute; reflexivity.
  - eexists. split; [vm_compute; reflexivity|].
    apply (proj2 (proj2 (proj2 (proj2 C5_size_above_10_is_10))) 1%nat
             (start example_input)).
    vm_compute. reflexivity.
Defined.
